(** * otk: the omnifest document container and the [compile]/[validate] driver

  A shallow embedding of [src/otk/document.py] (class [Omnifest]) and of
  [src/otk/command.py] (function [_process] and its two entry points),
  with the properties of the target-selection pipeline proved about it.

  Python values are modelled as follows.
  - [str] is [string]; [int] is [Z]; [Optional[str]] is [option string].
  - A tree (what the YAML loader yields) is the inductive [Tree]; a [dict]
    is an association list in insertion order, read and written with the
    operations of [Module Dict], which keep keys unique.
  - Code that may raise returns in the monad [M], which also records the
    calls that reach the outside world (file opens, include expansion,
    log records, directive resolution, writes) as a trace of events.
  - Mutable objects that are copied ([copy.deepcopy]) live in the store of
    [Module Store], where aliasing is explicit. *)

From stdpp Require Import base option strings list gmap.
From Stdlib Require Import Ascii ZArith Lia.

Set Warnings "-register-all".

(** ** Python [str] operations used by the sources *)

Module Str.

(** [s.startswith(p)] *)
Definition startswith (s p : string) : bool := String.prefix p s.

(** The characters of [s] from index [n] on: [s[n:]]. *)
Fixpoint drop (n : nat) (s : string) : string :=
  match n, s with
  | O, _ => s
  | S _, EmptyString => EmptyString
  | S m, String _ r => drop m r
  end.

(** [s.removeprefix(p)]: [s[len(p):]] when [s] starts with [p], else [s]. *)
Definition removeprefix (s p : string) : string :=
  if startswith s p then drop (String.length p) s else s.

(** [s.split(sep)] for a one-character separator: the pieces between the
    occurrences of [sep], so that the result has one more element than
    [s] has separators (and [''.split('.')] is [['']]). *)
Fixpoint split (sep : Ascii.ascii) (s : string) : list string :=
  match s with
  | EmptyString => [EmptyString]
  | String c r =>
      if Ascii.eqb c sep then EmptyString :: split sep r
      else match split sep r with
           | [] => [String c EmptyString]
           | piece :: pieces => String c piece :: pieces
           end
  end.

(** [sep.join(pieces)] *)
Fixpoint join (sep : Ascii.ascii) (pieces : list string) : string :=
  match pieces with
  | [] => EmptyString
  | [p] => p
  | p :: ps => p +:+ String sep (join sep ps)
  end.

(** Number of occurrences of the character [c] in [s]: [s.count(c)]. *)
Fixpoint count (c : Ascii.ascii) (s : string) : nat :=
  match s with
  | EmptyString => 0
  | String a r => (if Ascii.eqb a c then 1 else 0) + count c r
  end.

(** Python truthiness of an [Optional[str]]: [None] and [''] are falsy. *)
Definition truthy (o : option string) : bool :=
  match o with
  | None => false
  | Some s => negb (String.eqb s EmptyString)
  end.

End Str.

(** ** Trees and dictionaries *)

(** The recursive value a document deserialises to. *)
Inductive Tree : Type :=
| TNone
| TBool (b : bool)
| TInt (z : Z)
| TStr (s : string)
| TSeq (items : list Tree)
| TMap (items : list (string * Tree)).

Module Dict.
Section Dict.
Context {V : Type}.

(** A [dict[str, V]]: its items in insertion order. *)
Definition t : Type := list (string * V).

(** [list(d.keys())] *)
Definition keys (d : t) : list string := map fst d.

(** [d.get(k)] *)
Fixpoint get (k : string) (d : t) : option V :=
  match d with
  | [] => None
  | (k', v) :: r => if String.eqb k k' then Some v else get k r
  end.

(** [k in d] *)
Definition contains (k : string) (d : t) : bool :=
  match get k d with Some _ => true | None => false end.

(** [d[k] = v]: an existing key keeps its position, a new one goes last. *)
Fixpoint set (k : string) (v : V) (d : t) : t :=
  match d with
  | [] => [(k, v)]
  | (k', v') :: r =>
      if String.eqb k k' then (k, v) :: r else (k', v') :: set k v r
  end.

(** [not d] *)
Definition is_empty (d : t) : bool :=
  match d with [] => true | _ :: _ => false end.

(** [len(d)] *)
Definition len (d : t) : nat := length d.

End Dict.
Arguments t : clear implicits.
End Dict.

(** [copy.deepcopy] on a tree value: every container is rebuilt. On values
    this is all there is to say; what a copy shares with its original is a
    matter of object identity, modelled in [Module Store] below. *)
Fixpoint deepcopy (x : Tree) : Tree :=
  match x with
  | TNone => TNone
  | TBool b => TBool b
  | TInt z => TInt z
  | TStr s => TStr s
  | TSeq items => TSeq (map deepcopy items)
  | TMap items => TMap (map (fun kv => (fst kv, deepcopy (snd kv))) items)
  end.

(** [deepcopy] applied to the dictionary at the top of a document. *)
Definition deepcopy_dict (d : Dict.t Tree) : Dict.t Tree :=
  map (fun kv => (fst kv, deepcopy (snd kv))) d.

(** ** Exceptions, events and the monad of the driver *)

(** The exceptions the modelled code can raise. *)
Inductive exn : Type :=
| ParseVersionError (key : string)  (* omnifest must contain a key by the name of %r *)
| NoTargetsError                     (* input does not contain any targets *)
| OSError (filename : string)        (* [open] failed *)
| KeyError (key : string)            (* [d[key]] on a missing key *)
| IndexError                         (* [l[0]] on an empty list *)
| UnboundLocalError (name : string)  (* a local read before assignment *)
| Foreign (name : string).           (* raised inside [process_include] or [resolve] *)

(** [argparse.Namespace] as the two sub-parsers fill it; [validate] has no
    [output] attribute and never reads it. *)
Record Namespace : Type := {
  input : option string;
  output : option string;
  target : option string;
}.

(** A file object: [sys.stdin], [sys.stdout] or the result of [open]. *)
Inductive stream : Type :=
| Stdin
| Stdout
| File (name : string).

(** [f.name] *)
Definition stream_name (f : stream) : string :=
  match f with
  | Stdin => "<stdin>"
  | Stdout => "<stdout>"
  | File name => name
  end.

(** Modelled from the spec: the constant [PREFIX_TARGET] of [otk/constant.py],
    which is not among the sources; the spec gives the prefix of a target
    section's key as the literal [target.]. *)
Definition PREFIX_TARGET : string := "target.".

(** The four records [_process] logs at level fatal. *)
Definition MSG_NO_TARGETS : string := "INPUT does not contain any targets".
Definition MSG_MULTIPLE_TARGETS : string :=
  "INPUT contains multiple targets, `-t` is required".
Definition MSG_UNKNOWN_TARGET : string :=
  "requested target %r does not exist in INPUT".
Definition MSG_MALFORMED_TARGET : string :=
  "malformed target name %r. We need a format of '<TARGET_KIND>.<TARGET_NAME>'.".

Section Model.

(** The types of the collaborators that are not among the sources:
    [pathlib.Path], the context classes of [otk/context.py], the type of
    [ctx.defines] and the target classes of [otk/target.py]. *)
Variables (Path Context Defines Target : Type).

(** [State(path=..., defines=...)] of [otk/traversal.py]. *)
Record State : Type := { path : Path; defines : Defines }.

(** The one positional argument a context class is called with:
    [CommonContext(cwd)] gets a path, [context_registry.get(...)(ctx)] a context. *)
Inductive ctor_arg : Type :=
| FromPath (p : Path)
| FromContext (c : Context).

(** What a run does to the outside world, in order. *)
Inductive event : Type :=
| EvOpen (name : string) (writing : bool)
| EvInclude (ctx : Context) (state : State) (p : Path)
| EvFatal (msg : string) (args : list string)
| EvResolve (spec : Context) (state : State) (tree : Tree)
| EvWrite (dst : stream) (text : string).

(** A computation: the events it produced and its exception or value. *)
Definition M (A : Type) : Type := (list event * (exn + A))%type.

Definition ret {A : Type} (a : A) : M A := ([], inr a).

Definition raise {A : Type} (e : exn) : M A := ([], inl e).

Definition emit (e : event) : M unit := ([e], inr tt).

Definition bind {A B : Type} (m : M A) (k : A -> M B) : M B :=
  match m with
  | (tr, inl e) => (tr, inl e)
  | (tr, inr a) => (tr ++ fst (k a), snd (k a))
  end.

(** The events of a computation, and how it ended. *)
Definition trace {A : Type} (m : M A) : list event := fst m.
Definition outcome {A : Type} (m : M A) : exn + A := snd m.

End Model.

Arguments FromPath {Path Context} p.
Arguments FromContext {Path Context} c.
Arguments EvOpen {Path Context Defines} name writing.
Arguments EvInclude {Path Context Defines} ctx state p.
Arguments EvFatal {Path Context Defines} msg args.
Arguments EvResolve {Path Context Defines} spec state tree.
Arguments EvWrite {Path Context Defines} dst text.
Arguments Build_State {Path Defines} path defines.
Arguments path {Path Defines} s.
Arguments defines {Path Defines} s.
Arguments ret {Path Context Defines A} a.
Arguments raise {Path Context Defines A} e.
Arguments emit {Path Context Defines} e.
Arguments bind {Path Context Defines A B} m k.
Arguments trace {Path Context Defines A} m.
Arguments outcome {Path Context Defines A} m.

Declare Scope otk_scope.
Delimit Scope otk_scope with otk.
Notation "'let*' x ':=' c1 'in' c2" := (bind c1 (fun x => c2))
  (at level 10, x pattern, c1 at level 100, c2 at level 200) : otk_scope.
Open Scope otk_scope.

(** ** [otk/document.py] *)

(** The dictionary comprehension that both [Omnifest.ensure] and [_process]
    evaluate:
    [{key.removeprefix(PREFIX_TARGET): val for key, val in d.items()
      if key.startswith(PREFIX_TARGET)}]. *)
Definition target_available (d : Dict.t Tree) : Dict.t Tree :=
  fold_left
    (fun acc kv =>
       if Str.startswith (fst kv) PREFIX_TARGET
       then Dict.set (Str.removeprefix (fst kv) PREFIX_TARGET) (snd kv) acc
       else acc)
    d [].

(** An instance of [class Omnifest]. *)
Record Omnifest : Type := { _underlying_data : Dict.t Tree }.

Section Document.

(** The constant [NAME_VERSION] of [otk/constant.py], which is not among
    the sources: the key that marks the format version. *)
Variable NAME_VERSION : string.

(** [Omnifest.ensure(deserialized_data)] *)
Definition ensure (deserialized_data : Dict.t Tree) : exn + unit :=
  if negb (Dict.contains NAME_VERSION deserialized_data)
  then inl (ParseVersionError NAME_VERSION)
  else
    if Dict.is_empty (target_available deserialized_data)
    then inl NoTargetsError
    else inr tt.

(** [Omnifest(underlying_data)], that is [Omnifest.__init__]. *)
Definition Omnifest_init (underlying_data : Dict.t Tree) : exn + Omnifest :=
  match ensure underlying_data with
  | inl e => inl e
  | inr _ => inr {| _underlying_data := underlying_data |}
  end.

End Document.

(** The property [Omnifest.tree]. *)
Definition tree (self : Omnifest) : Dict.t Tree :=
  deepcopy_dict (_underlying_data self).

(** ** [otk/command.py] *)

Section Command.

Variables (Path Context Defines Target : Type).

(** The collaborators of [_process] that are not among the sources. A call
    that may change the context object it is given returns the object as the
    call left it. *)
Record Externals : Type := {
  (* otk/constant.py *)
  NAME_VERSION : string;
  (* pathlib *)
  Path_of : string -> Path;                (* [pathlib.Path(s)] *)
  Path_parent : Path -> Path;              (* [p.parent] *)
  Path_cwd : Path;                         (* [pathlib.Path.cwd()] *)
  (* the process and its file system *)
  stdin_fileno : string;                   (* [sys.stdin.fileno()], formatted *)
  can_open : string -> bool -> bool;       (* does [open(name[, "w"])] succeed *)
  (* otk/context.py *)
  CommonContext : ctor_arg Path Context -> Context;
  ctx_defines : Context -> Defines;        (* [ctx.defines] *)
  context_registry : gmap string (ctor_arg Path Context -> Context);
  (* otk/transform.py *)
  process_include :
    Context -> State Path Defines -> Path -> exn + (Dict.t Tree * Context);
  resolve :
    Context -> State Path Defines -> Tree -> exn + (Tree * Context);
  (* otk/target.py *)
  CommonTarget : unit -> Target;
  target_registry : gmap string (unit -> Target);
  as_string : Target -> Context -> Tree -> string;
}.

Variable X : Externals.

#[local] Abbreviation M := (M Path Context Defines).

(** [registry.get(kind, default)] on a [dict] *)
Definition registry_get {C : Type} (registry : gmap string C) (kind : string)
    (default : C) : C :=
  match registry !! kind with
  | Some c => c
  | None => default
  end.

(** [open(name)] and [open(name, "w")] *)
Definition open (name : string) (writing : bool) : M stream :=
  if can_open X name writing
  then let* _ := emit (EvOpen name writing) in ret (File name)
  else raise (OSError name).

(** [log.fatal(msg, *args)] *)
Definition log_fatal (msg : string) (args : list string) : M unit :=
  emit (EvFatal msg args).

(** Line 58 of [_process]:
    [pathlib.Path.cwd() if arguments.input is None
     else pathlib.Path(src.name).parent]. *)
Definition working_directory (arguments : Namespace) (src : stream) : Path :=
  match input arguments with
  | None => Path_cwd X
  | Some _ => Path_parent X (Path_of X (stream_name src))
  end.

(** Lines 60 to 63 of [_process]: the path of the document itself. *)
Definition document_path (arguments : Namespace) : Path :=
  match input arguments with
  | None => Path_of X ("/proc/self/fd/" +:+ stdin_fileno X)
  | Some i => Path_of X i
  end.

(** Lines 94 to 115 of [_process]: the identifier in [target_requested] is
    split, its subtree resolved and, unless [dry_run], rendered and written. *)
Definition process_target (dry_run : bool) (dst : option stream) (path : Path)
    (ctx : Context) (doc : Omnifest) (target_requested : string) : M Z :=
  match Str.split "."%char target_requested with
  | [kind; name] =>
      let spec :=
        registry_get (context_registry X) kind (CommonContext X)
          (FromContext ctx) in
      let state := Build_State path (ctx_defines X ctx) in
      let* subtree :=
        let key := PREFIX_TARGET +:+ kind +:+ "." +:+ name in
        match Dict.get key (tree doc) with
        | Some v => ret v
        | None => raise (KeyError key)
        end in
      let* resolved :=
        let* _ := emit (EvResolve spec state subtree) in
        match resolve X spec state subtree with
        | inl e => raise e
        | inr r => ret r
        end in
      let* _ :=
        if negb dry_run then
          match dst with
          | Some f =>
              emit (EvWrite f
                      (as_string X
                         (registry_get (target_registry X) kind (CommonTarget X) tt)
                         (snd resolved) (fst resolved)))
          | None => raise (UnboundLocalError "dst")
          end
        else ret tt in
      ret 0%Z
  | _ =>
      let* _ := log_fatal MSG_MALFORMED_TARGET [target_requested] in
      ret 1%Z
  end.

(** Lines 69 to 92 of [_process]: the checks on the targets the document
    offers and the choice of [target_requested], handed on to the rest. *)
Definition process_document (arguments : Namespace) (dry_run : bool)
    (dst : option stream) (path : Path) (ctx : Context) (doc : Omnifest)
    : M Z :=
  let target_available := target_available (tree doc) in
  if Dict.is_empty target_available then
    let* _ := log_fatal MSG_NO_TARGETS [] in
    ret 1%Z
  else
  let target_requested := target arguments in
  if (1 <? Dict.len target_available) && negb (Str.truthy target_requested) then
    let* _ := log_fatal MSG_MULTIPLE_TARGETS [] in
    ret 1%Z
  else
  let* target_requested :=
    match Dict.keys target_available with
    | [] => raise IndexError
    | k :: _ => ret k
    end in
  if negb (Dict.contains target_requested target_available) then
    let* _ := log_fatal MSG_UNKNOWN_TARGET [target_requested] in
    ret 1%Z
  else
  process_target dry_run dst path ctx doc target_requested.

(** [_process(arguments, dry_run)]: lines 52 to 67, then the two parts above. *)
Definition _process (arguments : Namespace) (dry_run : bool) : M Z :=
  let* src :=
    match input arguments with
    | None => ret Stdin
    | Some i => open i false
    end in
  let* dst :=
    if negb dry_run then
      match output arguments with
      | None => ret (Some Stdout)
      | Some o => let* f := open o true in ret (Some f)
      end
    else ret None in
  let cwd := working_directory arguments src in
  let path := document_path arguments in
  let ctx := CommonContext X (FromPath cwd) in
  let state := Build_State path (ctx_defines X ctx) in
  let* included :=
    let* _ := emit (EvInclude ctx state path) in
    match process_include X ctx state path with
    | inl e => raise e
    | inr r => ret r
    end in
  let ctx := snd included in
  let* doc :=
    match Omnifest_init (NAME_VERSION X) (fst included) with
    | inl e => raise e
    | inr doc => ret doc
    end in
  process_document arguments dry_run dst path ctx doc.

(** [compile(arguments)] *)
Definition compile (arguments : Namespace) : M Z :=
  _process arguments false.

(** [validate(arguments)] *)
Definition validate (arguments : Namespace) : M Z :=
  _process arguments true.

End Command.

Arguments NAME_VERSION {Path Context Defines Target} e.
Arguments Path_of {Path Context Defines Target} e s.
Arguments Path_parent {Path Context Defines Target} e p.
Arguments Path_cwd {Path Context Defines Target} e.
Arguments stdin_fileno {Path Context Defines Target} e.
Arguments can_open {Path Context Defines Target} e name writing.
Arguments CommonContext {Path Context Defines Target} e arg.
Arguments ctx_defines {Path Context Defines Target} e ctx.
Arguments context_registry {Path Context Defines Target} e.
Arguments process_include {Path Context Defines Target} e ctx state p.
Arguments resolve {Path Context Defines Target} e spec state tree.
Arguments CommonTarget {Path Context Defines Target} e u.
Arguments target_registry {Path Context Defines Target} e.
Arguments as_string {Path Context Defines Target} e tgt spec tree.
Arguments open {Path Context Defines Target} X name writing.
Arguments log_fatal {Path Context Defines} msg args.
Arguments working_directory {Path Context Defines Target} X arguments src.
Arguments document_path {Path Context Defines Target} X arguments.
Arguments process_target {Path Context Defines Target} X dry_run dst path ctx doc target_requested.
Arguments process_document {Path Context Defines Target} X arguments dry_run dst path ctx doc.
Arguments _process {Path Context Defines Target} X arguments dry_run.
Arguments compile {Path Context Defines Target} X arguments.
Arguments validate {Path Context Defines Target} X arguments.

(** ** Objects in a store: what [copy.deepcopy] does to shared data

    [Omnifest.tree] returns [deepcopy(self._underlying_data)]. Whether the
    caller can reach the document's own data through the result is a matter
    of object identity, so here the containers live in a store, values refer
    to them by address, and [deepcopy] is Python's: one new container per
    container met, found again through the memo when met twice. *)

Module Store.

(** A value: an immutable atom, or the address of a container. *)
Inductive value : Type :=
| VNone
| VBool (b : bool)
| VInt (z : Z)
| VStr (s : string)
| VRef (l : nat).

(** A container: a [list] or a [dict] with string keys. *)
Inductive object : Type :=
| OList (items : list value)
| ODict (items : list (string * value)).

(** The store, and the memo of a copy ([id] of an original to its copy). *)
Abbreviation heap := (gmap nat object).
Abbreviation memo := (gmap nat nat).

(** [y.append(a)] on the list at [y]. *)
Definition list_append (y : nat) (a : value) (h : heap) : heap :=
  match h !! y with
  | Some (OList items) => <[y := OList (items ++ [a])]> h
  | _ => h
  end.

(** [y[k] = v] on the dict at [y]. *)
Definition dict_setitem (y : nat) (k : string) (v : value) (h : heap) : heap :=
  match h !! y with
  | Some (ODict items) => <[y := ODict (Dict.set k v items)]> h
  | _ => h
  end.

Section Copiers.

(** The recursive call, [deepcopy(a, memo)]. *)
Variable deepcopy : value -> memo -> heap -> option (value * memo * heap).

(** The loop of [_deepcopy_list]: [for a in x: append(deepcopy(a, memo))]. *)
Fixpoint copy_items (y : nat) (items : list value) (m : memo) (h : heap)
    : option (memo * heap) :=
  match items with
  | [] => Some (m, h)
  | a :: rest =>
      match deepcopy a m h with
      | None => None
      | Some (a', m', h') => copy_items y rest m' (list_append y a' h')
      end
  end.

(** The loop of [_deepcopy_dict]:
    [for key, value in x.items(): y[deepcopy(key, memo)] = deepcopy(value, memo)];
    a key is a string, which [deepcopy] returns as it is. *)
Fixpoint copy_entries (y : nat) (items : list (string * value)) (m : memo)
    (h : heap) : option (memo * heap) :=
  match items with
  | [] => Some (m, h)
  | (k, a) :: rest =>
      match deepcopy a m h with
      | None => None
      | Some (a', m', h') => copy_entries y rest m' (dict_setitem y k a' h')
      end
  end.

End Copiers.

(** [copy.deepcopy(x, memo)]. An atom is returned as it is. A container that
    the memo knows is answered from the memo; otherwise a new empty container
    is allocated, entered in the memo, and filled with the copies of the
    items. [fuel] bounds the nesting of calls; the result is [None] when it
    runs out or when an address is not in the store. *)
Fixpoint deepcopy (fuel : nat) (x : value) (m : memo) (h : heap)
    : option (value * memo * heap) :=
  match x with
  | VRef l =>
      match m !! l with
      | Some y => Some (VRef y, m, h)
      | None =>
          match fuel with
          | O => None
          | S fuel' =>
              match h !! l with
              | None => None
              | Some (OList items) =>
                  let y := fresh (dom h) in
                  match copy_items (deepcopy fuel') y items
                          (<[l := y]> m) (<[y := OList []]> h) with
                  | None => None
                  | Some (m', h') => Some (VRef y, m', h')
                  end
              | Some (ODict items) =>
                  let y := fresh (dom h) in
                  match copy_entries (deepcopy fuel') y items
                          (<[l := y]> m) (<[y := ODict []]> h) with
                  | None => None
                  | Some (m', h') => Some (VRef y, m', h')
                  end
              end
          end
      end
  | _ => Some (x, m, h)
  end.

(** An [Omnifest] object: the reference it holds to its data. *)
Record Omnifest : Type := { _underlying_data : value }.

(** The property [Omnifest.tree]: [deepcopy(self._underlying_data)], with a
    memo of its own. *)
Definition tree (fuel : nat) (self : Omnifest) (h : heap)
    : option (value * heap) :=
  match deepcopy fuel (_underlying_data self) ∅ h with
  | Some (v, _, h') => Some (v, h')
  | None => None
  end.

(** A store to another: [o] is written at the address [l]. *)
Definition mutate (l : nat) (o : object) (h : heap) : heap := <[l := o]> h.

(** [repr_in avoid h t v]: in the store [h] the value [v] reads as the tree
    [t], and no container that is read has its address in [avoid]. *)
Fixpoint repr_in (avoid : gset nat) (h : heap) (t : Tree) (v : value) : Prop :=
  match t with
  | TNone => v = VNone
  | TBool b => v = VBool b
  | TInt z => v = VInt z
  | TStr s => v = VStr s
  | TSeq ts =>
      exists l vs,
        v = VRef l /\ (l ∉ avoid) /\ h !! l = Some (OList vs) /\
        (fix all (ts : list Tree) (vs : list value) : Prop :=
           match ts, vs with
           | [], [] => True
           | t :: ts, v :: vs => repr_in avoid h t v /\ all ts vs
           | _, _ => False
           end) ts vs
  | TMap kts =>
      exists l kvs,
        v = VRef l /\ (l ∉ avoid) /\ h !! l = Some (ODict kvs) /\
        NoDup (map fst kvs) /\
        (fix all (kts : list (string * Tree)) (kvs : list (string * value))
           : Prop :=
           match kts, kvs with
           | [], [] => True
           | kt :: kts, kv :: kvs =>
               fst kt = fst kv /\ repr_in avoid h (snd kt) (snd kv) /\
               all kts kvs
           | _, _ => False
           end) kts kvs
  end.

(** In the store [h] the value [v] reads as the tree [t]. *)
Definition repr (h : heap) (t : Tree) (v : value) : Prop := repr_in ∅ h t v.

(** How deeply the containers of a tree nest. *)
Fixpoint height (t : Tree) : nat :=
  match t with
  | TSeq ts => S (list_max (map height ts))
  | TMap kts => S (list_max (map (fun kt => height (snd kt)) kts))
  | _ => 0
  end.

End Store.

(** ** A small world to run the driver in

    Concrete collaborators, documents and arguments, used where a property is
    shown on an explicit run. *)

Module Example.

(** Context objects, by the class that built them and what it was given. *)
Inductive context : Type :=
| CommonAt (cwd : string)        (* [CommonContext(path)] *)
| CommonOver (base : context)    (* [CommonContext(ctx)] *)
| OSBuildOver (base : context).  (* the specialization registered for [osbuild] *)

Definition common_context (arg : ctor_arg string context) : context :=
  match arg with
  | FromPath p => CommonAt p
  | FromContext c => CommonOver c
  end.

Definition osbuild_context (arg : ctor_arg string context) : context :=
  match arg with
  | FromPath p => CommonAt p
  | FromContext c => OSBuildOver c
  end.

(** The directory part of a path written with [/]. *)
Definition dirname (p : string) : string :=
  match removelast (Str.split "/"%char p) with
  | [] => "."
  | parts => Str.join "/"%char parts
  end.

Definition pipeline : Tree := TMap [("pipelines", TSeq [TStr "build"])].

(** One target, of a kind with a registered specialization. *)
Definition doc_one : Dict.t Tree :=
  [("otk.version", TInt 1); ("target.osbuild.qcow2", pipeline)].

(** Two targets. *)
Definition doc_two : Dict.t Tree :=
  [("otk.version", TInt 1);
   ("target.osbuild.qcow2", pipeline);
   ("target.osbuild.ami", TMap [])].

(** One target whose key lacks the name after the kind. *)
Definition doc_malformed : Dict.t Tree :=
  [("otk.version", TInt 1); ("target.qemu", TMap [])].

(** One target, of a kind with no registered specialization. *)
Definition doc_generic : Dict.t Tree :=
  [("otk.version", TInt 1); ("target.qemu.x86_64", pipeline)].

(** No version marker; no target. *)
Definition doc_unversioned : Dict.t Tree := [("target.osbuild.qcow2", pipeline)].
Definition doc_no_targets : Dict.t Tree := [("otk.version", TInt 1)].

(** A rendering that tells trees apart by their first key. *)
Definition first_key (t : Tree) : string :=
  match t with
  | TMap ((k, _) :: _) => k
  | _ => ""
  end.

(** The documents the include expansion finds, by path. *)
Definition files (p : string) : option (Dict.t Tree) :=
  if String.eqb p "manifests/one.yaml" then Some doc_one
  else if String.eqb p "manifests/two.yaml" then Some doc_two
  else if String.eqb p "manifests/malformed.yaml" then Some doc_malformed
  else if String.eqb p "manifests/generic.yaml" then Some doc_generic
  else if String.eqb p "/proc/self/fd/0" then Some doc_one
  else None.

Definition world : Externals string context unit string := {|
  NAME_VERSION := "otk.version";
  Path_of := fun s => s;
  Path_parent := dirname;
  Path_cwd := "/home/user";
  stdin_fileno := "0";
  can_open := fun name _ => negb (String.eqb name "/proc/denied");
  CommonContext := common_context;
  ctx_defines := fun _ => tt;
  context_registry := {[ "osbuild" := osbuild_context ]};
  process_include := fun ctx _ p =>
    match files p with
    | Some d => inr (d, ctx)
    | None => inl (Foreign "FileNotFoundError")
    end;
  resolve := fun spec _ t => inr (t, spec);
  CommonTarget := fun _ => "common";
  target_registry := {[ "osbuild" := fun _ => "osbuild" ]};
  as_string := fun tgt _ t => tgt +:+ ":" +:+ first_key t;
|}.

(** A store that holds [doc_one]: the dict of the document at address 1,
    the dict of its target at 2 and the list of pipelines at 3. *)
Definition store : Store.heap :=
  {[ 1 := Store.ODict [("otk.version", Store.VInt 1);
                       ("target.osbuild.qcow2", Store.VRef 2)];
     2 := Store.ODict [("pipelines", Store.VRef 3)];
     3 := Store.OList [Store.VStr "build"] ]}.

(** The [Omnifest] whose data is at address 1. *)
Definition omnifest : Store.Omnifest :=
  {| Store._underlying_data := Store.VRef 1 |}.

(** [otk compile -t TARGET INPUT] and [otk validate -t TARGET INPUT]. *)
Definition args (i : string) (t : option string) : Namespace :=
  {| input := Some i; output := None; target := t |}.

End Example.


(** * Properties *)

(** ** Strings *)

Module StrFacts.
Import Str.

Lemma eqb_ascii_refl (c : Ascii.ascii) : Ascii.eqb c c = true.
Proof. apply Ascii.eqb_eq. reflexivity. Qed.

Lemma append_cons (c : Ascii.ascii) (p s : string) :
  String c p +:+ s = String c (p +:+ s).
Proof. reflexivity. Qed.

Lemma append_nil (s : string) : "" +:+ s = s.
Proof. reflexivity. Qed.

Lemma prefix_append (p s : string) : String.prefix p (p +:+ s) = true.
Proof.
  induction p as [|c p IH]; simpl.
  - destruct s; reflexivity.
  - destruct (Ascii.ascii_dec c c); [exact IH | congruence].
Qed.

Lemma drop_append (p s : string) : drop (String.length p) (p +:+ s) = s.
Proof. induction p as [|c p IH]; simpl; [destruct s; reflexivity | exact IH]. Qed.

Lemma startswith_restore (s p : string) :
  startswith s p = true -> p +:+ drop (String.length p) s = s.
Proof.
  unfold startswith. revert s.
  induction p as [|c p IH]; intros s H; simpl in *.
  - destruct s; reflexivity.
  - destruct s as [|a s]; simpl in H; [discriminate|].
    destruct (Ascii.ascii_dec c a) as [->|]; [|discriminate].
    rewrite append_cons. simpl. f_equal. apply IH, H.
Qed.

Lemma removeprefix_restore (s p : string) :
  startswith s p = true -> p +:+ removeprefix s p = s.
Proof.
  intros H. unfold removeprefix. rewrite H. apply startswith_restore, H.
Qed.

Lemma removeprefix_append (p s : string) : removeprefix (p +:+ s) p = s.
Proof.
  unfold removeprefix, startswith. rewrite prefix_append. apply drop_append.
Qed.

(** Stripping the prefix is injective on the strings that have it. *)
Lemma removeprefix_inj (s1 s2 p : string) :
  startswith s1 p = true -> startswith s2 p = true ->
  removeprefix s1 p = removeprefix s2 p -> s1 = s2.
Proof.
  intros H1 H2 E.
  rewrite <- (removeprefix_restore s1 p H1), <- (removeprefix_restore s2 p H2).
  f_equal. exact E.
Qed.

Lemma split_nonempty (sep : Ascii.ascii) (s : string) : split sep s <> [].
Proof.
  destruct s as [|c r]; simpl; [done|].
  destruct (Ascii.eqb c sep); [done|].
  destruct (split sep r); done.
Qed.

(** Joining the pieces of a split gives the string back. *)
Lemma join_split (sep : Ascii.ascii) (s : string) : join sep (split sep s) = s.
Proof.
  induction s as [|c r IH]; [reflexivity|].
  simpl. destruct (Ascii.eqb c sep) eqn:E.
  - apply Ascii.eqb_eq in E. subst c.
    pose proof (split_nonempty sep r) as Hne.
    destruct (split sep r) as [|p ps] eqn:Es; [congruence|].
    change (join sep ("" :: p :: ps)) with (String sep (join sep (p :: ps))).
    rewrite IH. reflexivity.
  - pose proof (split_nonempty sep r) as Hne.
    destruct (split sep r) as [|p ps] eqn:Es; [congruence|].
    destruct ps as [|q qs]; simpl in *; rewrite <- IH; reflexivity.
Qed.

(** A string that splits in two is its two pieces around one separator. *)
Lemma split_two (sep : Ascii.ascii) (s a b : string) :
  split sep s = [a; b] -> a +:+ String sep b = s.
Proof.
  intros H. rewrite <- (join_split sep s), H. reflexivity.
Qed.

(** A split has one more piece than the string has separators. *)
Lemma length_split (sep : Ascii.ascii) (s : string) :
  length (split sep s) = S (count sep s).
Proof.
  induction s as [|c r IH]; [reflexivity|].
  simpl. destruct (Ascii.eqb c sep); simpl.
  - rewrite IH. reflexivity.
  - destruct (split sep r) as [|p ps]; simpl in *; [discriminate | exact IH].
Qed.

End StrFacts.

(** ** Dictionaries *)

Module DictFacts.
Section DictFacts.
Context {V : Type}.
Implicit Types (d : Dict.t V) (k : string) (v : V).

Lemma get_In k d : Dict.get k d <> None <-> In k (Dict.keys d).
Proof.
  induction d as [|[k' v'] r IH]; simpl; [tauto|].
  destruct (String.eqb k k') eqn:E.
  - apply String.eqb_eq in E. subst. split; [auto | done].
  - apply String.eqb_neq in E. rewrite IH. split; [auto | intros [?|?]; congruence].
Qed.

Lemma contains_In k d : Dict.contains k d = true <-> In k (Dict.keys d).
Proof.
  rewrite <- get_In. unfold Dict.contains.
  destruct (Dict.get k d); split; congruence.
Qed.

Lemma contains_not_In k d : Dict.contains k d = false <-> ~ In k (Dict.keys d).
Proof.
  rewrite <- contains_In. destruct (Dict.contains k d); split; congruence.
Qed.

(** Writing a new key appends it. *)
Lemma keys_set_new k v d :
  ~ In k (Dict.keys d) -> Dict.keys (Dict.set k v d) = Dict.keys d ++ [k].
Proof.
  induction d as [|[k' v'] r IH]; simpl; intros H; [reflexivity|].
  destruct (String.eqb k k') eqn:E.
  - apply String.eqb_eq in E. subst. tauto.
  - simpl. f_equal. apply IH. tauto.
Qed.

Lemma set_new k v d :
  ~ In k (Dict.keys d) -> Dict.set k v d = d ++ [(k, v)].
Proof.
  induction d as [|[k' v'] r IH]; simpl; intros H; [reflexivity|].
  destruct (String.eqb k k') eqn:E.
  - apply String.eqb_eq in E. subst. tauto.
  - f_equal. apply IH. tauto.
Qed.

(** Writing into a dictionary that has items keeps its first key. *)
Lemma head_keys_set k v d :
  d <> [] -> head (Dict.keys (Dict.set k v d)) = head (Dict.keys d).
Proof.
  destruct d as [|[k' v'] r]; [done|]. intros _. simpl.
  destruct (String.eqb k k') eqn:E; [|reflexivity].
  apply String.eqb_eq in E. subst. reflexivity.
Qed.

Lemma set_nonempty k v d : Dict.set k v d <> [].
Proof.
  destruct d as [|[k' v'] r]; simpl; [done|].
  destruct (String.eqb k k'); done.
Qed.

(** The first item is found under its key. *)
Lemma get_head k v d : Dict.get k ((k, v) :: d) = Some v.
Proof. simpl. rewrite String.eqb_refl. reflexivity. Qed.

End DictFacts.
End DictFacts.

(** ** Value-level copies *)

(** An induction principle for [Tree] that reaches the trees inside the
    containers. *)
Lemma Tree_ind' (P : Tree -> Prop)
  (HNone : P TNone) (HBool : forall b, P (TBool b)) (HInt : forall z, P (TInt z))
  (HStr : forall s, P (TStr s))
  (HSeq : forall items, Forall P items -> P (TSeq items))
  (HMap : forall items, Forall (fun kv => P (snd kv)) items -> P (TMap items)) :
  forall t, P t.
Proof.
  fix IH 1. intros [| b | z | s | items | items].
  - exact HNone.
  - apply HBool.
  - apply HInt.
  - apply HStr.
  - apply HSeq. induction items as [|x xs IHxs]; constructor; [apply IH | exact IHxs].
  - apply HMap. induction items as [|[k x] xs IHxs]; constructor; [apply IH | exact IHxs].
Qed.

(** A deep copy of a tree is an equal tree. *)
Lemma deepcopy_eq (t : Tree) : deepcopy t = t.
Proof.
  induction t as [| b | z | s | items IH | items IH] using Tree_ind';
    simpl; try reflexivity; f_equal.
  - induction IH as [|x xs Hx _ IHxs]; simpl; [reflexivity|]. by rewrite Hx, IHxs.
  - induction IH as [|[k x] xs Hx _ IHxs]; simpl in *; [reflexivity|].
    by rewrite Hx, IHxs.
Qed.

Lemma deepcopy_dict_eq (d : Dict.t Tree) : deepcopy_dict d = d.
Proof.
  unfold deepcopy_dict. induction d as [|[k x] r IH]; simpl; [reflexivity|].
  by rewrite deepcopy_eq, IH.
Qed.

Lemma tree_eq (doc : Omnifest) : tree doc = _underlying_data doc.
Proof. apply deepcopy_dict_eq. Qed.

(** ** The available targets of a document *)

(** Does a top-level key name a target section. *)
Definition is_target_key (k : string) : bool := Str.startswith k PREFIX_TARGET.

(** The identifiers of the targets a document offers, as the spec defines
    them: the top-level keys that have the prefix, in document order, with
    the prefix stripped. *)
Definition available_identifiers (d : Dict.t Tree) : list string :=
  map (fun k => Str.removeprefix k PREFIX_TARGET)
    (List.filter is_target_key (Dict.keys d)).

(** One step of the comprehension that builds [target_available]. *)
Definition collect (acc : Dict.t Tree) (kv : string * Tree) : Dict.t Tree :=
  if Str.startswith (fst kv) PREFIX_TARGET
  then Dict.set (Str.removeprefix (fst kv) PREFIX_TARGET) (snd kv) acc
  else acc.

Lemma target_available_fold (d : Dict.t Tree) :
  target_available d = fold_left collect d [].
Proof. reflexivity. Qed.

Lemma collect_head (d acc : Dict.t Tree) :
  acc <> [] ->
  fold_left collect d acc <> [] /\
  head (Dict.keys (fold_left collect d acc)) = head (Dict.keys acc).
Proof.
  revert acc. induction d as [|[k v] r IH]; intros acc Hne; simpl; [done|].
  unfold collect at 2 4. simpl.
  destruct (Str.startswith k PREFIX_TARGET); [|by apply IH].
  destruct (IH (Dict.set (Str.removeprefix k PREFIX_TARGET) v acc)) as [H1 H2].
  { apply DictFacts.set_nonempty. }
  split; [exact H1|]. rewrite H2. by apply DictFacts.head_keys_set.
Qed.

(** The first key of [target_available] is the first available identifier. *)
Lemma head_target_available (d : Dict.t Tree) :
  head (Dict.keys (target_available d)) = head (available_identifiers d).
Proof.
  rewrite target_available_fold. unfold available_identifiers.
  induction d as [|[k v] r IH]; simpl; [reflexivity|].
  unfold collect at 2, is_target_key. simpl.
  destruct (Str.startswith k PREFIX_TARGET) eqn:E; simpl; [|exact IH].
  destruct (collect_head r [(Str.removeprefix k PREFIX_TARGET, v)]) as [_ ->];
    done.
Qed.

(** [target_available] is empty exactly when no key names a target. *)
Lemma is_empty_target_available (d : Dict.t Tree) :
  Dict.is_empty (target_available d) = true <-> available_identifiers d = [].
Proof.
  pose proof (head_target_available d) as H.
  destruct (target_available d) as [|[k v] r], (available_identifiers d);
    simpl in *; split; congruence.
Qed.

Lemma collect_keys (d acc : Dict.t Tree) :
  NoDup (Dict.keys d) ->
  (forall k, In k (Dict.keys d) -> is_target_key k = true ->
             ~ In (Str.removeprefix k PREFIX_TARGET) (Dict.keys acc)) ->
  Dict.keys (fold_left collect d acc) = Dict.keys acc ++ available_identifiers d.
Proof.
  unfold available_identifiers.
  revert acc. induction d as [|[k v] r IH]; intros acc Hnd Hfresh; simpl.
  { by rewrite app_nil_r. }
  apply NoDup_cons in Hnd as [Hk Hnd].
  unfold collect at 2, is_target_key at 1. simpl.
  fold (is_target_key k).
  destruct (is_target_key k) eqn:E; simpl.
  - rewrite IH; [| exact Hnd |].
    + rewrite DictFacts.keys_set_new; [by rewrite <- app_assoc|].
      apply Hfresh; [by left | exact E].
    + intros k' Hk' E'. rewrite DictFacts.keys_set_new.
      2:{ apply Hfresh; [by left | exact E]. }
      rewrite in_app_iff. intros [Hin | [Heq | []]].
      * eapply Hfresh; [right; exact Hk' | exact E' | exact Hin].
      * apply StrFacts.removeprefix_inj in Heq; [| exact E | exact E'].
        subst k'. apply Hk. by apply list_elem_of_In.
  - apply IH; [exact Hnd|]. intros k' Hk'. apply Hfresh. by right.
Qed.

(** For a dictionary (unique keys), [target_available] has exactly the
    available identifiers as its keys, in document order. *)
Lemma keys_target_available (d : Dict.t Tree) :
  NoDup (Dict.keys d) ->
  Dict.keys (target_available d) = available_identifiers d.
Proof.
  intros Hnd. rewrite target_available_fold, collect_keys; [done | exact Hnd |].
  intros k _ _ [].
Qed.

Lemma len_target_available (d : Dict.t Tree) :
  NoDup (Dict.keys d) ->
  Dict.len (target_available d) = length (available_identifiers d).
Proof.
  intros Hnd. rewrite <- (keys_target_available d Hnd).
  unfold Dict.len, Dict.keys. by rewrite length_map.
Qed.

(** The first available identifier names a key the document has. *)
Lemma first_identifier_key (d : Dict.t Tree) (id : string) :
  head (available_identifiers d) = Some id ->
  In (PREFIX_TARGET +:+ id) (Dict.keys d) /\
  is_target_key (PREFIX_TARGET +:+ id) = true.
Proof.
  unfold available_identifiers.
  induction d as [|[k v] r IH]; simpl; [done|].
  destruct (is_target_key k) eqn:E; simpl.
  - intros [= <-]. rewrite StrFacts.removeprefix_restore by exact E. auto.
  - intros H. destruct (IH H) as [H1 H2]. auto.
Qed.

Lemma get_first_identifier (d : Dict.t Tree) (id : string) :
  head (available_identifiers d) = Some id ->
  exists v, Dict.get (PREFIX_TARGET +:+ id) d = Some v.
Proof.
  intros H. apply first_identifier_key in H as [H _].
  apply DictFacts.get_In in H.
  destruct (Dict.get (PREFIX_TARGET +:+ id) d) as [v|]; [eauto | done].
Qed.

(** ** The document container *)

Lemma available_identifiers_nil (d : Dict.t Tree) :
  available_identifiers d = [] <->
  forall k, In k (Dict.keys d) -> Str.startswith k PREFIX_TARGET = false.
Proof.
  unfold available_identifiers.
  induction d as [|[k v] r IH]; simpl; [tauto|].
  unfold is_target_key at 1.
  destruct (Str.startswith k PREFIX_TARGET) eqn:E; simpl.
  - split; [done|]. intros H. specialize (H k (or_introl eq_refl)). congruence.
  - rewrite IH. split; [intros H k' [<-|Hk']; auto | auto].
Qed.

Lemma available_identifiers_cons (d : Dict.t Tree) :
  available_identifiers d <> [] <->
  exists k, In k (Dict.keys d) /\ Str.startswith k PREFIX_TARGET = true.
Proof.
  rewrite available_identifiers_nil. split.
  - intros H. induction d as [|[k v] r IH]; simpl in *.
    + exfalso. apply H. tauto.
    + destruct (Str.startswith k PREFIX_TARGET) eqn:E; [eauto|].
      destruct IH as [k' [H1 H2]]; [|eauto].
      intros Hr. apply H. intros k' [<-|Hk']; auto.
  - intros [k [H1 H2]] H. rewrite (H k H1) in H2. done.
Qed.

(** What [Omnifest.ensure] accepts. *)
Lemma ensure_ok (NV : string) (d : Dict.t Tree) :
  ensure NV d = inr tt <->
  In NV (Dict.keys d) /\ available_identifiers d <> [].
Proof.
  unfold ensure. rewrite <- DictFacts.contains_In.
  destruct (Dict.contains NV d); simpl; [|split; [done | intros [? _]; done]].
  destruct (Dict.is_empty (target_available d)) eqn:E.
  - apply is_empty_target_available in E. split; [done | tauto].
  - split; [|done]. intros _. split; [done|].
    intros H. apply is_empty_target_available in H. congruence.
Qed.

Lemma Omnifest_init_ok (NV : string) (d : Dict.t Tree) (doc : Omnifest) :
  Omnifest_init NV d = inr doc <->
  doc = {| _underlying_data := d |} /\ ensure NV d = inr tt.
Proof.
  unfold Omnifest_init. destruct (ensure NV d) as [e|[]]; split.
  - done.
  - intros [_ ?]; done.
  - intros [= <-]. done.
  - intros [-> _]. done.
Qed.

(** C3. Constructing an [Omnifest] from a mapping raises the version error
    when the mapping lacks the version marker key, raises the no-targets
    error when the marker is there and no key starts with the target prefix,
    and succeeds, holding the mapping, when the marker is there and some key
    starts with the prefix. *)
Theorem Omnifest_construction (NV : string) (d : Dict.t Tree) :
  (~ In NV (Dict.keys d) ->
     Omnifest_init NV d = inl (ParseVersionError NV)) /\
  (In NV (Dict.keys d) ->
   (forall k, In k (Dict.keys d) -> Str.startswith k PREFIX_TARGET = false) ->
     Omnifest_init NV d = inl NoTargetsError) /\
  (In NV (Dict.keys d) ->
   (exists k, In k (Dict.keys d) /\ Str.startswith k PREFIX_TARGET = true) ->
     Omnifest_init NV d = inr {| _underlying_data := d |}).
Proof.
  unfold Omnifest_init, ensure. repeat split.
  - intros H. apply DictFacts.contains_not_In in H. by rewrite H.
  - intros H Hno. apply DictFacts.contains_In in H. rewrite H. simpl.
    apply available_identifiers_nil, is_empty_target_available in Hno.
    by rewrite Hno.
  - intros H Hsome. apply DictFacts.contains_In in H. rewrite H. simpl.
    apply available_identifiers_cons in Hsome.
    destruct (Dict.is_empty (target_available d)) eqn:E; [|done].
    apply is_empty_target_available in E. done.
Qed.


(** ** Runs of the driver *)

Section Pipeline.

Variables (Path Context Defines Target : Type).
Variable X : Externals Path Context Defines Target.

#[local] Abbreviation event := (event Path Context Defines).

(** The context [_process] builds first: [CommonContext(cwd)]. *)
Definition initial_context (arguments : Namespace) : Context :=
  CommonContext X
    (FromPath
       match input arguments with
       | None => Path_cwd X
       | Some i => Path_parent X (Path_of X i)
       end).

(** The state of the include pass: [State(path=path, defines=ctx.defines)]. *)
Definition initial_state (arguments : Namespace) : State Path Defines :=
  Build_State (document_path X arguments)
    (ctx_defines X (initial_context arguments)).

(** Every file the run opens can be opened. *)
Definition opens (arguments : Namespace) (dry_run : bool) : Prop :=
  (forall i, input arguments = Some i -> can_open X i false = true) /\
  (dry_run = false ->
   forall o, output arguments = Some o -> can_open X o true = true).

(** The run opens its files and the include expansion returns the mapping
    [d], leaving the context object as [ctx]. *)
Definition reads (arguments : Namespace) (dry_run : bool)
    (d : Dict.t Tree) (ctx : Context) : Prop :=
  opens arguments dry_run /\
  process_include X (initial_context arguments) (initial_state arguments)
    (document_path X arguments) = inr (d, ctx).

(** Where [dst] points once lines 53 and 54 have run. *)
Definition destination (arguments : Namespace) (dry_run : bool)
    : option stream :=
  if dry_run then None
  else Some match output arguments with None => Stdout | Some o => File o end.

(** The events of lines 52 to 67 when the files open. *)
Definition prologue (arguments : Namespace) (dry_run : bool) : list event :=
  match input arguments with None => [] | Some i => [EvOpen i false] end ++
  (if dry_run then []
   else match output arguments with None => [] | Some o => [EvOpen o true] end) ++
  [EvInclude (initial_context arguments) (initial_state arguments)
     (document_path X arguments)].

(** Is an event one that touches the output destination. *)
Definition is_output (e : event) : bool :=
  match e with
  | EvOpen _ writing => writing
  | EvWrite _ _ => true
  | _ => false
  end.

(** Is an event part of directive resolution or rendering. *)
Definition is_resolution (e : event) : bool :=
  match e with
  | EvResolve _ _ _ | EvWrite _ _ => true
  | _ => false
  end.

Lemma bind_ret {A B : Type} (a : A) (k : A -> M Path Context Defines B) :
  bind (ret a) k = k a.
Proof. unfold bind, ret. simpl. by destruct (k a). Qed.

Lemma bind_emit {B : Type} (e : event) (k : unit -> M Path Context Defines B) :
  bind (emit e) k = (e :: trace (k tt), outcome (k tt)).
Proof. reflexivity. Qed.

Lemma bind_raise {A B : Type} (e : exn) (k : A -> M Path Context Defines B) :
  bind (raise e) k = raise e.
Proof. reflexivity. Qed.

Lemma bind_pair {A B : Type} (tr : list event) (a : A)
    (k : A -> M Path Context Defines B) :
  bind (tr, inr a) k = (tr ++ trace (k a), outcome (k a)).
Proof. reflexivity. Qed.

(** Lines 52 to 67: a run whose files open gets as far as the include
    expansion, and goes on with the document when that is constructed. *)
Lemma _process_reads (arguments : Namespace) (dry_run : bool)
    (d : Dict.t Tree) (ctx : Context) :
  reads arguments dry_run d ctx ->
  _process X arguments dry_run =
    match Omnifest_init (NAME_VERSION X) d with
    | inl e => (prologue arguments dry_run, inl e)
    | inr doc =>
        let rest :=
          process_document X arguments dry_run
            (destination arguments dry_run) (document_path X arguments) ctx doc in
        (prologue arguments dry_run ++ trace rest, outcome rest)
    end.
Proof.
  intros [[Hin Hout] Hinc].
  unfold _process, prologue, destination, open, initial_state, initial_context,
    working_directory in *.
  destruct arguments as [i o t]; simpl in *.
  destruct i as [i|]; [rewrite (Hin i eq_refl)|];
    (destruct dry_run; simpl;
     [| destruct o as [o|]; [rewrite (Hout eq_refl o eq_refl)|]]); simpl;
    rewrite ?bind_ret, ?bind_emit; simpl; rewrite ?bind_ret, ?bind_emit; simpl;
    rewrite Hinc; simpl;
    destruct (Omnifest_init (NAME_VERSION X) d) as [e|doc]; simpl;
    try reflexivity;
    unfold trace, outcome;
    destruct (process_document _ _ _ _ _ _ _) as [tr r]; reflexivity.
Qed.

(** Line 82 of [_process]: several targets and none requested. *)
Definition ambiguous (d : Dict.t Tree) (requested : option string) : bool :=
  (1 <? Dict.len (target_available d)) && negb (Str.truthy requested).

(** Lines 69 to 84: with several targets and no request the run ends there. *)
Lemma process_document_ambiguous (arguments : Namespace) (dry_run : bool)
    (dst : option stream) (p : Path) (ctx : Context) (doc : Omnifest) :
  ambiguous (_underlying_data doc) (target arguments) = true ->
  process_document X arguments dry_run dst p ctx doc =
    ([EvFatal MSG_MULTIPLE_TARGETS []], inr 1%Z).
Proof.
  unfold ambiguous, process_document. rewrite tree_eq. intros H. rewrite H.
  destruct (target_available (_underlying_data doc)); [done|reflexivity].
Qed.

(** Lines 69 to 92: otherwise the run goes on with the first available
    identifier, whatever was requested. *)
Lemma process_document_selected (arguments : Namespace) (dry_run : bool)
    (dst : option stream) (p : Path) (ctx : Context) (doc : Omnifest)
    (id : string) :
  ambiguous (_underlying_data doc) (target arguments) = false ->
  head (available_identifiers (_underlying_data doc)) = Some id ->
  process_document X arguments dry_run dst p ctx doc =
    process_target X dry_run dst p ctx doc id.
Proof.
  unfold ambiguous, process_document. rewrite tree_eq. intros H Hid. rewrite H.
  rewrite <- head_target_available in Hid.
  destruct (target_available (_underlying_data doc)) as [|[k v] r]; [done|].
  simpl in Hid. injection Hid as ->. simpl Dict.is_empty. cbv iota.
  simpl Dict.keys. cbv iota. rewrite bind_ret.
  unfold Dict.contains. rewrite DictFacts.get_head. reflexivity.
Qed.

(** Lines 94 to 103: an identifier that does not split in two is refused. *)
Lemma process_target_malformed (dry_run : bool) (dst : option stream)
    (p : Path) (ctx : Context) (doc : Omnifest) (id : string) :
  length (Str.split "."%char id) <> 2 ->
  process_target X dry_run dst p ctx doc id =
    ([EvFatal MSG_MALFORMED_TARGET [id]], inr 1%Z).
Proof.
  unfold process_target. intros H.
  destruct (Str.split "."%char id) as [|a [|b [|c r]]]; simpl in H;
    try reflexivity; done.
Qed.

(** The context and the state line 107 and 108 build for a kind. *)
Definition spec_for (kind : string) (ctx : Context) : Context :=
  match context_registry X !! kind with
  | Some specialization => specialization (FromContext ctx)
  | None => CommonContext X (FromContext ctx)
  end.

(** The renderer line 113 builds for a kind. *)
Definition renderer_for (kind : string) : Target :=
  match target_registry X !! kind with
  | Some specialization => specialization tt
  | None => CommonTarget X tt
  end.

(** Lines 105 to 115: a well-formed identifier of a key of the document is
    resolved and, in compile mode, rendered. *)
Lemma process_target_resolves (dry_run : bool) (dst : stream)
    (p : Path) (ctx : Context) (doc : Omnifest) (id kind name : string)
    (sub : Tree) :
  Str.split "."%char id = [kind; name] ->
  Dict.get (PREFIX_TARGET +:+ id) (_underlying_data doc) = Some sub ->
  process_target X dry_run (if dry_run then None else Some dst) p ctx doc id =
    let spec := spec_for kind ctx in
    let state := Build_State p (ctx_defines X ctx) in
    match resolve X spec state sub with
    | inl e => ([EvResolve spec state sub], inl e)
    | inr (t, spec') =>
        (EvResolve spec state sub ::
           (if dry_run then []
            else [EvWrite dst (as_string X (renderer_for kind) spec' t)]),
         inr 0%Z)
    end.
Proof.
  unfold process_target, spec_for, renderer_for, registry_get.
  intros Hsplit Hget. rewrite Hsplit, tree_eq.
  apply StrFacts.split_two in Hsplit.
  change ("." +:+ name) with (String "."%char name). rewrite Hsplit, Hget.
  rewrite bind_ret, bind_emit.
  destruct (context_registry X !! kind) as [c|];
    (simpl; destruct (resolve X _ _ sub) as [e|[t spec']]; [reflexivity|];
     simpl; destruct dry_run; simpl; by destruct (target_registry X !! kind)).
Qed.

Lemma ambiguous_false (d : Dict.t Tree) (requested : option string) :
  ambiguous d requested = false <->
  Dict.len (target_available d) < 2 \/ Str.truthy requested = true.
Proof.
  unfold ambiguous. rewrite andb_false_iff, Nat.ltb_ge, negb_false_iff.
  split; (intros [H|H]; [left; lia | by right]).
Qed.

(** A run that reads a document and constructs it: what is left is
    [process_document]. *)
Lemma _process_document (arguments : Namespace) (dry_run : bool)
    (d : Dict.t Tree) (ctx : Context) (doc : Omnifest) :
  reads arguments dry_run d ctx ->
  Omnifest_init (NAME_VERSION X) d = inr doc ->
  _process X arguments dry_run =
    let rest :=
      process_document X arguments dry_run
        (destination arguments dry_run) (document_path X arguments) ctx doc in
    (prologue arguments dry_run ++ trace rest, outcome rest).
Proof.
  intros Hr Hdoc. rewrite (_process_reads _ _ _ _ Hr), Hdoc. reflexivity.
Qed.

(** Is an event resolution work: include expansion or directive resolution. *)
Definition is_resolution_work (e : event) : bool :=
  match e with
  | EvInclude _ _ _ | EvResolve _ _ _ => true
  | _ => false
  end.

(** Is an event a file open or the include expansion. *)
Definition is_setup (e : event) : bool :=
  match e with
  | EvOpen _ _ | EvInclude _ _ _ => true
  | _ => false
  end.

Lemma prologue_setup (arguments : Namespace) (dry_run : bool) (e : event) :
  In e (prologue arguments dry_run) -> is_setup e = true.
Proof.
  unfold prologue. rewrite !in_app_iff.
  destruct (input arguments), dry_run, (output arguments); simpl;
    intuition (subst; reflexivity).
Qed.

Lemma prologue_no_resolution (arguments : Namespace) (dry_run : bool) (e : event) :
  In e (prologue arguments dry_run) -> is_resolution e = false.
Proof.
  unfold prologue. rewrite !in_app_iff.
  destruct (input arguments), dry_run, (output arguments); simpl;
    intuition (subst; reflexivity).
Qed.


(** Line 52: the input cannot be opened. *)
Lemma _process_input_denied (arguments : Namespace) (dry_run : bool) (i : string) :
  input arguments = Some i -> can_open X i false = false ->
  _process X arguments dry_run = ([], inl (OSError i)).
Proof. intros Hi Ci. unfold _process, open. by rewrite Hi, Ci. Qed.

(** Line 54: the output cannot be opened. *)
Lemma _process_output_denied (arguments : Namespace) (o : string) :
  (forall i, input arguments = Some i -> can_open X i false = true) ->
  output arguments = Some o -> can_open X o true = false ->
  _process X arguments false =
    (match input arguments with None => [] | Some i => [EvOpen i false] end,
     inl (OSError o)).
Proof.
  intros Hin Ho Co. unfold _process, open. rewrite Ho.
  destruct (input arguments) as [i|]; [rewrite (Hin i eq_refl)|];
    simpl; rewrite Co; reflexivity.
Qed.

(** Line 67: the include expansion raises. *)
Lemma _process_include_raises (arguments : Namespace) (dry_run : bool) (e : exn) :
  opens arguments dry_run ->
  process_include X (initial_context arguments) (initial_state arguments)
    (document_path X arguments) = inl e ->
  _process X arguments dry_run = (prologue arguments dry_run, inl e).
Proof.
  intros [Hin Hout] Hinc.
  unfold _process, prologue, open, initial_state, initial_context,
    working_directory in *.
  destruct arguments as [i o t]; simpl in *.
  destruct i as [i|]; [rewrite (Hin i eq_refl)|];
    (destruct dry_run; simpl;
     [| destruct o as [o|]; [rewrite (Hout eq_refl o eq_refl)|]]); simpl;
    rewrite Hinc; reflexivity.
Qed.

(** Either a file of the run cannot be opened, or they all can. *)
Lemma opens_cases (arguments : Namespace) (dry_run : bool) :
  (exists i, input arguments = Some i /\ can_open X i false = false) \/
  (exists o, dry_run = false /\ output arguments = Some o /\
     can_open X o true = false /\
     forall i, input arguments = Some i -> can_open X i false = true) \/
  opens arguments dry_run.
Proof.
  unfold opens. destruct (input arguments) as [i|].
  - destruct (can_open X i false) eqn:Ci; [|left; eauto].
    right. destruct dry_run.
    + right. split; [by intros ? [= <-] | done].
    + destruct (output arguments) as [o|].
      * destruct (can_open X o true) eqn:Co.
        -- right. split; [by intros ? [= <-] | by intros _ ? [= <-]].
        -- left. exists o. repeat split; try done. by intros ? [= <-].
      * right. split; [by intros ? [= <-] | done].
  - right. destruct dry_run.
    + right. split; done.
    + destruct (output arguments) as [o|].
      * destruct (can_open X o true) eqn:Co.
        -- right. split; [done | by intros _ ? [= <-]].
        -- left. exists o. repeat split; done.
      * right. split; done.
Qed.

(** C4. For a constructed document with more than one available target, a
    run with no requested target logs the several-targets error and returns
    1, with nothing resolved or written; for a constructed document with
    exactly one available target, a run with no requested target goes on
    with that target: the rest of the run is [process_target] at its
    identifier, which, when the identifier is well formed, resolves the
    subtree under the target's key. *)
Theorem implicit_target_selection (arguments : Namespace) (dry_run : bool)
    (d : Dict.t Tree) (ctx : Context) (doc : Omnifest) :
  reads arguments dry_run d ctx ->
  Omnifest_init (NAME_VERSION X) d = inr doc ->
  NoDup (Dict.keys d) ->
  target arguments = None ->
  (1 < length (available_identifiers d) ->
   _process X arguments dry_run =
     (prologue arguments dry_run ++ [EvFatal MSG_MULTIPLE_TARGETS []],
      inr 1%Z)) /\
  (forall id, available_identifiers d = [id] ->
   (let rest :=
      process_target X dry_run (destination arguments dry_run)
        (document_path X arguments) ctx doc id in
    _process X arguments dry_run =
      (prologue arguments dry_run ++ trace rest, outcome rest)) /\
   (forall kind name, Str.split "."%char id = [kind; name] ->
    exists sub,
      Dict.get (PREFIX_TARGET +:+ id) d = Some sub /\
      In (EvResolve (spec_for kind ctx)
            (Build_State (document_path X arguments) (ctx_defines X ctx)) sub)
         (trace (_process X arguments dry_run)))).
Proof.
  intros Hr Hdoc Hnd Hnone.
  pose proof Hdoc as Hok. apply Omnifest_init_ok in Hok as [-> _].
  rewrite (_process_document _ _ _ _ _ Hr Hdoc). cbv zeta. split.
  - intros Hmany. rewrite process_document_ambiguous; [reflexivity|].
    unfold ambiguous. simpl. rewrite len_target_available by exact Hnd.
    rewrite Hnone. simpl. rewrite andb_true_r. by apply Nat.ltb_lt.
  - intros id Hone.
    assert (Hsel : process_document X arguments dry_run
                     (destination arguments dry_run) (document_path X arguments)
                     ctx {| _underlying_data := d |} =
                   process_target X dry_run (destination arguments dry_run)
                     (document_path X arguments) ctx {| _underlying_data := d |} id).
    { apply process_document_selected; simpl; [|by rewrite Hone].
      apply ambiguous_false. left. rewrite len_target_available by exact Hnd.
      rewrite Hone. simpl. lia. }
    rewrite Hsel. split; [reflexivity|].
    intros kind name Hs.
    destruct (get_first_identifier d id) as [sub Hsub]; [by rewrite Hone|].
    exists sub. split; [exact Hsub|].
    unfold trace at 1. simpl fst. apply in_or_app. right.
    unfold destination.
    rewrite (process_target_resolves dry_run _ _ _ {| _underlying_data := d |}
               id kind name sub Hs Hsub).
    cbv zeta. destruct (resolve X _ _ sub) as [e|[t spec']]; simpl; auto.
Qed.

(** C8. When the run goes on with the identifier [kind.name], the context
    that resolves its subtree is built by the specialization registered for
    [kind], or by [CommonContext] when none is registered, and the renderer
    is the specialization registered for [kind], or [CommonTarget] when none
    is; if that resolution returns, the run returns 0, and in compile mode it
    has written what that renderer makes of the resolved tree. *)
Theorem registry_fallback (arguments : Namespace) (dry_run : bool)
    (d : Dict.t Tree) (ctx : Context) (doc : Omnifest)
    (id kind name : string) (sub t : Tree) (spec' : Context) :
  reads arguments dry_run d ctx ->
  Omnifest_init (NAME_VERSION X) d = inr doc ->
  Dict.len (target_available d) < 2 \/ Str.truthy (target arguments) = true ->
  head (available_identifiers d) = Some id ->
  Str.split "."%char id = [kind; name] ->
  Dict.get (PREFIX_TARGET +:+ id) d = Some sub ->
  let spec :=
    match context_registry X !! kind with
    | Some specialization => specialization (FromContext ctx)
    | None => CommonContext X (FromContext ctx)
    end in
  let renderer :=
    match target_registry X !! kind with
    | Some specialization => specialization tt
    | None => CommonTarget X tt
    end in
  let state := Build_State (document_path X arguments) (ctx_defines X ctx) in
  resolve X spec state sub = inr (t, spec') ->
  _process X arguments dry_run =
    (prologue arguments dry_run ++
       EvResolve spec state sub ::
       (if dry_run then []
        else [EvWrite
                match output arguments with None => Stdout | Some o => File o end
                (as_string X renderer spec' t)]),
     inr 0%Z).
Proof.
  intros Hr Hdoc Hcheck Hid Hs Hsub spec renderer state Hres.
  pose proof Hdoc as Hok. apply Omnifest_init_ok in Hok as [-> _].
  rewrite (_process_document _ _ _ _ _ Hr Hdoc). cbv zeta.
  rewrite (process_document_selected _ _ _ _ _ _ id);
    [| by apply ambiguous_false | exact Hid].
  unfold destination.
  rewrite (process_target_resolves dry_run _ _ _ {| _underlying_data := d |}
             id kind name sub Hs Hsub).
  cbv zeta. fold spec state. unfold spec_for. fold spec. rewrite Hres.
  reflexivity.
Qed.

(** C2, as amended. When the identifier the run selects (the only available
    one when none is requested, or the requested one when it is the first
    available) does not consist of two parts around a single [.], the run
    logs the malformed-target-name error and returns 1. This happens after
    the include expansion and the construction of the document, and before
    any directive resolution or rendering. *)
Theorem malformed_target_rejected (arguments : Namespace) (dry_run : bool)
    (d : Dict.t Tree) (ctx : Context) (doc : Omnifest) (id : string) :
  reads arguments dry_run d ctx ->
  Omnifest_init (NAME_VERSION X) d = inr doc ->
  NoDup (Dict.keys d) ->
  (target arguments = None /\ available_identifiers d = [id]) \/
  (target arguments = Some id /\ id <> EmptyString /\
   head (available_identifiers d) = Some id) ->
  Str.count "."%char id <> 1 ->
  _process X arguments dry_run =
    (prologue arguments dry_run ++ [EvFatal MSG_MALFORMED_TARGET [id]],
     inr 1%Z) /\
  In (EvInclude (initial_context arguments) (initial_state arguments)
        (document_path X arguments))
     (trace (_process X arguments dry_run)) /\
  (forall e, In e (trace (_process X arguments dry_run)) ->
             is_resolution e = false).
Proof.
  intros Hr Hdoc Hnd Hsel Hmal.
  pose proof Hdoc as Hok. apply Omnifest_init_ok in Hok as [-> _].
  assert (Hrun : _process X arguments dry_run =
    (prologue arguments dry_run ++ [EvFatal MSG_MALFORMED_TARGET [id]],
     inr 1%Z)).
  { rewrite (_process_document _ _ _ _ _ Hr Hdoc). cbv zeta.
    rewrite (process_document_selected _ _ _ _ _ _ id).
    - rewrite process_target_malformed; [reflexivity|].
      rewrite StrFacts.length_split. lia.
    - apply ambiguous_false. simpl. destruct Hsel as [[_ Hone]|[Hreq [Hne _]]].
      + left. rewrite len_target_available by exact Hnd. rewrite Hone.
        simpl. lia.
      + right. rewrite Hreq. simpl. apply negb_true_iff.
        by apply String.eqb_neq.
    - simpl. destruct Hsel as [[_ Hone]|[_ [_ Hhead]]];
        [by rewrite Hone | exact Hhead]. }
  rewrite Hrun. unfold trace. simpl fst. split; [reflexivity|]. split.
  - unfold prologue. rewrite !in_app_iff. simpl. tauto.
  - intros e. rewrite in_app_iff. intros [Hin|[<-|[]]]; [|reflexivity].
    by apply prologue_no_resolution in Hin.
Qed.

(** The events lines 94 to 115 can produce. *)
Lemma process_target_events (dry_run : bool) (dst : option stream) (p : Path)
    (ctx : Context) (doc : Omnifest) (id : string) (e : event) :
  In e (trace (process_target X dry_run dst p ctx doc id)) ->
  e = EvFatal MSG_MALFORMED_TARGET [id] \/ is_resolution e = true.
Proof.
  unfold process_target.
  destruct (Str.split "."%char id) as [|a [|b [|c r]]]; simpl;
    try (intros [<-|[]]; by left).
  destruct (Dict.get _ (tree doc)) as [sub|]; simpl; [|done].
  destruct (resolve X _ _ sub) as [x|[t spec']]; simpl.
  { intros [<-|[]]. by right. }
  destruct dry_run; simpl; [intros [<-|[]]; by right|].
  destruct dst as [f|]; simpl; intros H; right;
    decompose [or] H; subst; done.
Qed.

(** The events lines 69 to 115 can produce. *)
Lemma process_document_events (arguments : Namespace) (dry_run : bool)
    (dst : option stream) (p : Path) (ctx : Context) (doc : Omnifest)
    (e : event) :
  In e (trace (process_document X arguments dry_run dst p ctx doc)) ->
  (e = EvFatal MSG_NO_TARGETS [] /\
   Dict.is_empty (target_available (_underlying_data doc)) = true) \/
  e = EvFatal MSG_MULTIPLE_TARGETS [] \/
  (exists id, e = EvFatal MSG_MALFORMED_TARGET [id]) \/
  is_resolution e = true.
Proof.
  unfold process_document. rewrite tree_eq.
  destruct (Dict.is_empty (target_available (_underlying_data doc))) eqn:He.
  { simpl. intros [<-|[]]. by left. }
  destruct (_ && _).
  { simpl. intros [<-|[]]. right. by left. }
  destruct (target_available (_underlying_data doc)) as [|[k v] r]; [done|].
  simpl Dict.keys. cbv iota. rewrite bind_ret.
  unfold Dict.contains. rewrite DictFacts.get_head. simpl negb. cbv iota.
  intros H. apply process_target_events in H as [->|H]; eauto.
Qed.

(** C10. An [Omnifest] that was constructed holds a mapping with the version
    marker key and with at least one key that starts with the target prefix;
    hence no run of [_process] takes the no-targets branch of line 76, whose
    mark is the record it logs. *)
Theorem constructed_Omnifest_invariant :
  (forall (d : Dict.t Tree) (doc : Omnifest),
     Omnifest_init (NAME_VERSION X) d = inr doc ->
     In (NAME_VERSION X) (Dict.keys (_underlying_data doc)) /\
     exists k, In k (Dict.keys (_underlying_data doc)) /\
               Str.startswith k PREFIX_TARGET = true) /\
  (forall (arguments : Namespace) (dry_run : bool) (args : list string),
     ~ In (EvFatal MSG_NO_TARGETS args)
          (trace (_process X arguments dry_run))).
Proof.
  split.
  - intros d doc Hdoc. apply Omnifest_init_ok in Hdoc as [-> Hens].
    apply ensure_ok in Hens as [Hv Ht]. simpl.
    by apply available_identifiers_cons in Ht.
  - intros arguments dry_run args.
    destruct (opens_cases arguments dry_run)
      as [(i & Hi & Ci)|[(o & -> & Ho & Co & Hin)|Hop]].
    + rewrite (_process_input_denied _ _ i Hi Ci). simpl. tauto.
    + rewrite (_process_output_denied _ o Hin Ho Co).
      destruct (input arguments); simpl; intuition discriminate.
    + destruct (process_include X (initial_context arguments)
                  (initial_state arguments) (document_path X arguments))
        as [e|[d ctx]] eqn:Hinc.
      * rewrite (_process_include_raises _ _ e Hop Hinc). simpl.
        intros H. by apply prologue_setup in H as H'.
      * rewrite (_process_reads _ _ d ctx (conj Hop Hinc)).
        destruct (Omnifest_init (NAME_VERSION X) d) as [e|doc] eqn:Hdoc.
        { simpl. intros H. by apply prologue_setup in H as H'. }
        cbv zeta. unfold trace at 1. simpl fst. rewrite in_app_iff.
        intros [H|H].
        { by apply prologue_setup in H as H'. }
        apply Omnifest_init_ok in Hdoc as [-> Hens].
        apply ensure_ok in Hens as [_ Hne].
        apply process_document_events in H
          as [[_ He]|[H|[[id H]|H]]]; try discriminate.
        apply is_empty_target_available in He. done.
Qed.

(** No run of [_process] takes the unknown-target branch of line 90: the
    identifier tested there is a key of the dictionary it is tested against. *)
Theorem unknown_target_never_reported (arguments : Namespace) (dry_run : bool)
    (args : list string) :
  ~ In (EvFatal MSG_UNKNOWN_TARGET args) (trace (_process X arguments dry_run)).
Proof.
  destruct (opens_cases arguments dry_run)
    as [(i & Hi & Ci)|[(o & -> & Ho & Co & Hin)|Hop]].
  - rewrite (_process_input_denied _ _ i Hi Ci). simpl. tauto.
  - rewrite (_process_output_denied _ o Hin Ho Co).
    destruct (input arguments); simpl; intuition discriminate.
  - destruct (process_include X (initial_context arguments)
                (initial_state arguments) (document_path X arguments))
      as [e|[d ctx]] eqn:Hinc.
    + rewrite (_process_include_raises _ _ e Hop Hinc). simpl.
      intros H. by apply prologue_setup in H as H'.
    + rewrite (_process_reads _ _ d ctx (conj Hop Hinc)).
      destruct (Omnifest_init (NAME_VERSION X) d) as [e|doc] eqn:Hdoc.
      { simpl. intros H. by apply prologue_setup in H as H'. }
      cbv zeta. unfold trace at 1. simpl fst. rewrite in_app_iff.
      intros [H|H].
      { by apply prologue_setup in H as H'. }
      apply process_document_events in H
        as [[H _]|[H|[[id H]|H]]]; discriminate.
Qed.

Lemma prologue_include (arguments : Namespace) (dry_run : bool)
    (ctx : Context) (state : State Path Defines) (p : Path) :
  In (EvInclude ctx state p) (prologue arguments dry_run) ->
  ctx = initial_context arguments /\ state = initial_state arguments /\
  p = document_path X arguments.
Proof.
  unfold prologue. rewrite !in_app_iff.
  destruct (input arguments), dry_run, (output arguments); simpl;
    intuition congruence.
Qed.

Lemma prologue_has_include (arguments : Namespace) (dry_run : bool) :
  In (EvInclude (initial_context arguments) (initial_state arguments)
        (document_path X arguments))
     (prologue arguments dry_run).
Proof. unfold prologue. rewrite !in_app_iff. simpl. tauto. Qed.

(** C7. The include expansion of a run is given the context
    [CommonContext(cwd)], where [cwd] is the parent of the input path when
    the document is read from a named file and the current working directory
    of the process when it is read from standard input; and a run whose
    files open does reach that include expansion. *)
Theorem include_base_directory (arguments : Namespace) (dry_run : bool) :
  (forall ctx state p,
     In (EvInclude ctx state p) (trace (_process X arguments dry_run)) ->
     ctx = CommonContext X
             (FromPath
                match input arguments with
                | Some file => Path_parent X (Path_of X file)
                | None => Path_cwd X
                end) /\
     p = document_path X arguments /\ path state = document_path X arguments) /\
  (opens arguments dry_run ->
   In (EvInclude (initial_context arguments) (initial_state arguments)
         (document_path X arguments))
      (trace (_process X arguments dry_run))).
Proof.
  assert (Hpro : forall ctx state p,
    In (EvInclude ctx state p) (prologue arguments dry_run) ->
    ctx = CommonContext X
            (FromPath
               match input arguments with
               | Some file => Path_parent X (Path_of X file)
               | None => Path_cwd X
               end) /\
    p = document_path X arguments /\ path state = document_path X arguments).
  { intros ctx state p H. apply prologue_include in H as (-> & -> & ->).
    unfold initial_context. by destruct (input arguments). }
  destruct (opens_cases arguments dry_run)
    as [(i & Hi & Ci)|[(o & -> & Ho & Co & Hin)|Hop]].
  - rewrite (_process_input_denied _ _ i Hi Ci). split; [done|].
    intros [Hin _]. rewrite (Hin i Hi) in Ci. done.
  - rewrite (_process_output_denied _ o Hin Ho Co). split.
    + destruct (input arguments); simpl; intuition discriminate.
    + intros [_ Hout]. rewrite (Hout eq_refl o Ho) in Co. done.
  - destruct (process_include X (initial_context arguments)
                (initial_state arguments) (document_path X arguments))
      as [e|[d ctx1]] eqn:Hinc.
    { rewrite (_process_include_raises _ _ e Hop Hinc). simpl.
      split; [exact Hpro | intros _; apply prologue_has_include]. }
    rewrite (_process_reads _ _ d ctx1 (conj Hop Hinc)).
    destruct (Omnifest_init (NAME_VERSION X) d) as [e|doc] eqn:Hdoc.
    { simpl. split; [exact Hpro | intros _; apply prologue_has_include]. }
    cbv zeta. unfold trace at 1 3. simpl fst. split.
    + intros ctx state p. rewrite in_app_iff. intros [H|H]; [by apply Hpro|].
      apply process_document_events in H
        as [[H _]|[H|[[id H]|H]]]; discriminate.
    + intros _. apply in_or_app. left. apply prologue_has_include.
Qed.

(** The events of a run that are not about its output destination. *)
Definition without_output (tr : list event) : list event :=
  List.filter (fun e => negb (is_output e)) tr.

Lemma without_output_app (tr1 tr2 : list event) :
  without_output (tr1 ++ tr2) = without_output tr1 ++ without_output tr2.
Proof. apply List.filter_app. Qed.

Lemma without_output_In (tr : list event) (e : event) :
  In e (without_output tr) -> is_output e = false.
Proof.
  unfold without_output. rewrite List.filter_In. intros [_ H].
  by apply negb_true_iff.
Qed.

Lemma without_output_prologue (arguments : Namespace) :
  without_output (prologue arguments false) = prologue arguments true.
Proof.
  unfold prologue. destruct (input arguments), (output arguments); reflexivity.
Qed.

(** How two runs, one in validate mode and one in compile mode writing to
    [dst], compare: same ending, same events but for those on the output,
    and the compile run that returns 0 has written the rendering of the tree
    the validate run resolved. *)
Definition parity (dst : stream) (v c : M Path Context Defines Z) : Prop :=
  outcome v = outcome c /\
  without_output (trace c) = trace v /\
  (outcome c = inr 0%Z ->
   exists spec state sub t spec' renderer,
     In (EvResolve spec state sub) (trace v) /\
     resolve X spec state sub = inr (t, spec') /\
     In (EvWrite dst (as_string X renderer spec' t)) (trace c)).

Lemma process_target_parity (dst : stream) (p : Path) (ctx : Context)
    (doc : Omnifest) (id : string) :
  parity dst (process_target X true None p ctx doc id)
    (process_target X false (Some dst) p ctx doc id).
Proof.
  unfold parity, process_target.
  destruct (Str.split "."%char id) as [|a [|b [|c r]]]; simpl;
    try (repeat split; discriminate).
  destruct (Dict.get _ (tree doc)) as [sub|]; simpl;
    [|repeat split; discriminate].
  destruct (resolve X _ _ sub) as [x|[t spec']] eqn:Hres; simpl;
    [repeat split; discriminate|].
  repeat split. intros _. do 6 eexists. split; [by left|].
  split; [exact Hres|]. right. by left.
Qed.

Lemma process_document_parity (arguments : Namespace) (dst : stream)
    (p : Path) (ctx : Context) (doc : Omnifest) :
  parity dst (process_document X arguments true None p ctx doc)
    (process_document X arguments false (Some dst) p ctx doc).
Proof.
  unfold process_document.
  destruct (Dict.is_empty _); [repeat split; discriminate|].
  destruct (_ && _); [repeat split; discriminate|].
  destruct (Dict.keys _) as [|k r]; [repeat split; discriminate|].
  rewrite !bind_ret.
  destruct (negb _); [repeat split; discriminate|].
  apply process_target_parity.
Qed.

Lemma parity_prologue (arguments : Namespace) (dst : stream)
    (v c : M Path Context Defines Z) :
  parity dst v c ->
  parity dst (prologue arguments true ++ trace v, outcome v)
    (prologue arguments false ++ trace c, outcome c).
Proof.
  unfold parity. intros (Ho & Ht & Hw). unfold trace at 1 3 5 7. simpl.
  rewrite without_output_app, without_output_prologue, Ht.
  repeat split; [exact Ho|]. intros H0.
  destruct (Hw H0) as (spec & state & sub & t & spec' & renderer & H1 & H2 & H3).
  exists spec, state, sub, t, spec', renderer.
  rewrite !in_app_iff. auto.
Qed.


End Pipeline.

Arguments initial_context {Path Context Defines Target} X arguments.
Arguments initial_state {Path Context Defines Target} X arguments.
Arguments opens {Path Context Defines Target} X arguments dry_run.
Arguments reads {Path Context Defines Target} X arguments dry_run d ctx.
Arguments prologue {Path Context Defines Target} X arguments dry_run.
Arguments is_output {Path Context Defines} e.
Arguments is_resolution {Path Context Defines} e.
Arguments is_setup {Path Context Defines} e.
Arguments is_resolution_work {Path Context Defines} e.
Arguments without_output {Path Context Defines} tr.
Arguments spec_for {Path Context Defines Target} X kind ctx.
Arguments renderer_for {Path Context Defines Target} X kind.

(** ** The properties on explicit runs *)

Module Runs.
Import Example.

(** The hypotheses on a run in the example world are closed and decided by
    computation. *)
Ltac run_reads :=
  split;
  [ split; [ intros ? [= <-]; reflexivity | intros _ ? [=] ]
  | reflexivity ].

Lemma NoDup_doc_one : NoDup (Dict.keys doc_one).
Proof. apply (bool_decide_unpack _). vm_compute. exact I. Qed.

Lemma NoDup_doc_two : NoDup (Dict.keys doc_two).
Proof. apply (bool_decide_unpack _). vm_compute. exact I. Qed.

Lemma NoDup_doc_malformed : NoDup (Dict.keys doc_malformed).
Proof. apply (bool_decide_unpack _). vm_compute. exact I. Qed.

(** C1, on a run: [otk compile -t osbuild.ami manifests/one.yaml], where the
    document offers [osbuild.qcow2] only. The requested identifier is not
    available, and yet the run logs no error, resolves and renders the
    subtree of [osbuild.qcow2], and returns 0. *)
Theorem unknown_target_is_compiled :
  ~ In "osbuild.ami" (available_identifiers doc_one) /\
  _process world (args "manifests/one.yaml" (Some "osbuild.ami")) false =
    ([EvOpen "manifests/one.yaml" false;
      EvInclude (CommonAt "manifests")
        (Build_State "manifests/one.yaml" tt) "manifests/one.yaml";
      EvResolve (OSBuildOver (CommonAt "manifests"))
        (Build_State "manifests/one.yaml" tt) pipeline;
      EvWrite Stdout "osbuild:pipelines"],
     inr 0%Z).
Proof.
  split; [|reflexivity]. simpl. intros [H|[]]. discriminate H.
Qed.

(** C2 does not hold as stated: on [otk validate -t qemu
    manifests/malformed.yaml], where the only target key is [target.qemu],
    the malformed identifier is refused, but only after the include expansion
    has run. *)
Lemma late_rejection_of_malformed_target :
  _process world (args "manifests/malformed.yaml" (Some "qemu")) true =
    ([EvOpen "manifests/malformed.yaml" false;
      EvInclude (CommonAt "manifests")
        (Build_State "manifests/malformed.yaml" tt) "manifests/malformed.yaml";
      EvFatal MSG_MALFORMED_TARGET ["qemu"]],
     inr 1%Z) /\
  Str.count "."%char "qemu" <> 1 /\
  ~ (forall e,
       In e (trace (_process world
                      (args "manifests/malformed.yaml" (Some "qemu")) true)) ->
       is_resolution_work e = false).
Proof.
  split; [reflexivity|]. split; [discriminate|]. intros H.
  specialize (H (EvInclude (CommonAt "manifests")
                   (Build_State "manifests/malformed.yaml" tt)
                   "manifests/malformed.yaml")).
  discriminate H. right. left. reflexivity.
Qed.

(** C3 on three mappings: no marker; a marker and no target; both. *)
Lemma Omnifest_construction_witness :
  Omnifest_init "otk.version" doc_unversioned =
    inl (ParseVersionError "otk.version") /\
  Omnifest_init "otk.version" doc_no_targets = inl NoTargetsError /\
  Omnifest_init "otk.version" doc_one = inr {| _underlying_data := doc_one |}.
Proof.
  split; [|split].
  - apply (Omnifest_construction "otk.version" doc_unversioned).
    simpl. intros [H|[]]. discriminate H.
  - apply (Omnifest_construction "otk.version" doc_no_targets).
    + simpl. by left.
    + simpl. intros k [<-|[]]. reflexivity.
  - apply (Omnifest_construction "otk.version" doc_one).
    + simpl. by left.
    + exists "target.osbuild.qcow2". split; [simpl; tauto | reflexivity].
Defined.


(** C4 on [otk validate manifests/two.yaml] (two targets) and on
    [otk validate manifests/one.yaml] (one target). *)
Lemma implicit_target_selection_witness :
  _process world (args "manifests/two.yaml" None) true =
    (prologue world (args "manifests/two.yaml" None) true ++
       [EvFatal MSG_MULTIPLE_TARGETS []], inr 1%Z) /\
  In (EvResolve (spec_for world "osbuild" (CommonAt "manifests"))
        (Build_State "manifests/one.yaml" tt) pipeline)
     (trace (_process world (args "manifests/one.yaml" None) true)).
Proof.
  split.
  - apply (implicit_target_selection _ _ _ _ world
             (args "manifests/two.yaml" None) true
             doc_two (CommonAt "manifests") {| _underlying_data := doc_two |}).
    + run_reads.
    + reflexivity.
    + exact NoDup_doc_two.
    + reflexivity.
    + simpl. lia.
  - destruct (implicit_target_selection _ _ _ _ world
                (args "manifests/one.yaml" None) true
                doc_one (CommonAt "manifests") {| _underlying_data := doc_one |})
      as [_ Hone].
    + run_reads.
    + reflexivity.
    + exact NoDup_doc_one.
    + reflexivity.
    + destruct (Hone "osbuild.qcow2" eq_refl) as [_ Hres].
      destruct (Hres "osbuild" "qcow2" eq_refl) as (sub & Hsub & Hin).
      injection Hsub as <-. exact Hin.
Defined.

(** C8 on [otk compile manifests/generic.yaml], whose target kind [qemu] has
    no registered specialization, and on [otk compile manifests/one.yaml],
    whose target kind [osbuild] has one. *)
Lemma registry_fallback_witness :
  _process world (args "manifests/generic.yaml" None) false =
    (prologue world (args "manifests/generic.yaml" None) false ++
       [EvResolve (CommonOver (CommonAt "manifests"))
          (Build_State "manifests/generic.yaml" tt) pipeline;
        EvWrite Stdout "common:pipelines"],
     inr 0%Z) /\
  _process world (args "manifests/one.yaml" None) false =
    (prologue world (args "manifests/one.yaml" None) false ++
       [EvResolve (OSBuildOver (CommonAt "manifests"))
          (Build_State "manifests/one.yaml" tt) pipeline;
        EvWrite Stdout "osbuild:pipelines"],
     inr 0%Z).
Proof.
  split.
  - apply (registry_fallback _ _ _ _ world
             (args "manifests/generic.yaml" None) false
             doc_generic (CommonAt "manifests")
             {| _underlying_data := doc_generic |}
             "qemu.x86_64" "qemu" "x86_64" pipeline pipeline
             (CommonOver (CommonAt "manifests"))).
    + run_reads.
    + reflexivity.
    + left. simpl. lia.
    + reflexivity.
    + reflexivity.
    + reflexivity.
    + reflexivity.
  - apply (registry_fallback _ _ _ _ world
             (args "manifests/one.yaml" None) false
             doc_one (CommonAt "manifests") {| _underlying_data := doc_one |}
             "osbuild.qcow2" "osbuild" "qcow2" pipeline pipeline
             (OSBuildOver (CommonAt "manifests"))).
    + run_reads.
    + reflexivity.
    + left. simpl. lia.
    + reflexivity.
    + reflexivity.
    + reflexivity.
    + reflexivity.
Defined.

(** C2 as amended, on [otk validate manifests/malformed.yaml]. *)
Lemma malformed_target_rejected_witness :
  _process world (args "manifests/malformed.yaml" None) true =
    (prologue world (args "manifests/malformed.yaml" None) true ++
       [EvFatal MSG_MALFORMED_TARGET ["qemu"]], inr 1%Z) /\
  In (EvInclude (initial_context world (args "manifests/malformed.yaml" None))
        (initial_state world (args "manifests/malformed.yaml" None))
        (document_path world (args "manifests/malformed.yaml" None)))
     (trace (_process world (args "manifests/malformed.yaml" None) true)) /\
  (forall e,
     In e (trace (_process world (args "manifests/malformed.yaml" None) true)) ->
     is_resolution e = false).
Proof.
  apply (malformed_target_rejected _ _ _ _ world
           (args "manifests/malformed.yaml" None) true
           doc_malformed (CommonAt "manifests")
           {| _underlying_data := doc_malformed |} "qemu").
  - run_reads.
  - reflexivity.
  - exact NoDup_doc_malformed.
  - left. split; reflexivity.
  - discriminate.
Defined.

(** C10 on the example world: a constructed document, and a run. *)
Lemma constructed_Omnifest_invariant_witness :
  (In "otk.version" (Dict.keys doc_one) /\
   exists k, In k (Dict.keys doc_one) /\
             Str.startswith k PREFIX_TARGET = true) /\
  ~ In (EvFatal MSG_NO_TARGETS [])
       (trace (_process world (args "manifests/one.yaml" None) false)).
Proof.
  destruct (constructed_Omnifest_invariant _ _ _ _ world) as [Hinv Hrun].
  split.
  - apply (Hinv doc_one {| _underlying_data := doc_one |}). reflexivity.
  - apply Hrun.
Defined.

(** C7 on a run that reads a named file and on one that reads standard input. *)
Lemma include_base_directory_witness :
  In (EvInclude (CommonAt "manifests")
        (Build_State "manifests/one.yaml" tt) "manifests/one.yaml")
     (trace (_process world (args "manifests/one.yaml" None) true)) /\
  In (EvInclude (CommonAt "/home/user")
        (Build_State "/proc/self/fd/0" tt) "/proc/self/fd/0")
     (trace (_process world
               {| input := None; output := None; target := None |} true)).
Proof.
  split.
  - apply (include_base_directory _ _ _ _ world
             (args "manifests/one.yaml" None) true).
    split; [intros ? [= <-]; reflexivity | intros _ ? [=]].
  - apply (include_base_directory _ _ _ _ world
             {| input := None; output := None; target := None |} true).
    split; [intros ? [=] | intros _ ? [=]].
Defined.


End Runs.

(** ** Copies in the store *)

Module StoreFacts.
Import Store.

(** The items of a list object read as the trees of a sequence. *)
Lemma repr_in_seq (A : gset nat) (h : heap) (ts : list Tree) (v : value) :
  repr_in A h (TSeq ts) v <->
  exists l vs,
    v = VRef l /\ (l ∉ A) /\ h !! l = Some (OList vs) /\
    Forall2 (repr_in A h) ts vs.
Proof.
  simpl. split; intros (l & vs & Hv & Hl & Hh & Hall); exists l, vs;
    repeat split; try done; clear Hh.
  - revert vs Hall. induction ts as [|t ts IH]; intros [|x vs] Hall.
    + constructor.
    + destruct Hall.
    + destruct Hall.
    + destruct Hall as [Ht Hall]. constructor; [exact Ht | by apply IH].
  - induction Hall as [|t x ts vs Ht _ IH]; [done | by split].
Qed.

(** The items of a dict object read as the items of a mapping. *)
Lemma repr_in_map (A : gset nat) (h : heap) (kts : list (string * Tree))
    (v : value) :
  repr_in A h (TMap kts) v <->
  exists l kvs,
    v = VRef l /\ (l ∉ A) /\ h !! l = Some (ODict kvs) /\
    NoDup (map fst kvs) /\
    Forall2 (fun kt kv => fst kt = fst kv /\ repr_in A h (snd kt) (snd kv))
      kts kvs.
Proof.
  simpl. split; intros (l & kvs & Hv & Hl & Hh & Hnd & Hall); exists l, kvs;
    repeat split; try done; clear Hh Hnd.
  - revert kvs Hall. induction kts as [|kt kts IH]; intros [|kv kvs] Hall.
    + constructor.
    + destruct Hall.
    + destruct Hall.
    + destruct Hall as (Hk & Ht & Hall). constructor; [done | by apply IH].
  - induction Hall as [|kt kv kts kvs [Hk Ht] _ IH]; [done | by repeat split].
Qed.

Lemma repr_in_atom (A : gset nat) (h : heap) (t : Tree) (v : value) :
  match t with TSeq _ | TMap _ => False | _ => True end ->
  repr_in A h t v <->
  v = match t with
      | TBool b => VBool b | TInt z => VInt z | TStr s => VStr s
      | _ => VNone
      end.
Proof. destruct t; simpl; tauto. Qed.

#[local] Opaque repr_in.

(** Reading a tree goes over from one store and set of addresses to avoid
    to another when every container that may be read is there unchanged,
    and is not among the addresses to avoid. *)
Lemma repr_in_transfer (A A' : gset nat) (h h' : heap) (t : Tree) (v : value) :
  (forall l o, l ∉ A -> h !! l = Some o -> (l ∉ A') /\ h' !! l = Some o) ->
  repr_in A h t v -> repr_in A' h' t v.
Proof.
  intros Htr. revert v.
  induction t as [| b | z | s | ts IH | kts IH] using Tree_ind'; intros v;
    try (rewrite !repr_in_atom by done; done).
  - rewrite !repr_in_seq. intros (l & vs & -> & Hl & Hh & Hall).
    destruct (Htr l _ Hl Hh) as [Hl' Hh'].
    exists l, vs. repeat split; try done.
    clear Hh Hh'. induction Hall as [|t x ts vs Ht _ IHall]; [constructor|].
    apply Forall_cons in IH as [IHt IHts].
    constructor; [by apply IHt | by apply IHall].
  - rewrite !repr_in_map. intros (l & kvs & -> & Hl & Hh & Hnd & Hall).
    destruct (Htr l _ Hl Hh) as [Hl' Hh'].
    exists l, kvs. repeat split; try done.
    clear Hh Hh' Hnd. induction Hall as [|kt kv kts kvs [Hk Ht] _ IHall];
      [constructor|].
    apply Forall_cons in IH as [IHt IHts].
    constructor; [split; [done | by apply IHt] | by apply IHall].
Qed.

(** A larger store reads the same. *)
Lemma repr_in_weaken (A : gset nat) (h h' : heap) (t : Tree) (v : value) :
  h ⊆ h' -> repr_in A h t v -> repr_in A h' t v.
Proof.
  intros Hsub. apply repr_in_transfer. intros l o Hl Hh.
  split; [done | by eapply lookup_weaken].
Qed.

(** Avoiding fewer addresses reads the same. *)
Lemma repr_in_avoid_less (A A' : gset nat) (h : heap) (t : Tree) (v : value) :
  A' ⊆ A -> repr_in A h t v -> repr_in A' h t v.
Proof.
  intros Hsub. apply repr_in_transfer. intros l o Hl Hh. split; [set_solver | done].
Qed.

(** An address that is not in the store can be avoided as well. *)
Lemma repr_in_avoid_fresh (A : gset nat) (h : heap) (t : Tree) (v : value)
    (y : nat) :
  y ∉ dom h -> repr_in A h t v -> repr_in (A ∪ {[y]}) h t v.
Proof.
  intros Hy. apply repr_in_transfer. intros l o Hl Hh. split; [|done].
  assert (Hdom : l ∈ dom h) by (apply elem_of_dom; eauto).
  apply not_elem_of_union. split; [done|]. apply not_elem_of_singleton.
  intros ->. done.
Qed.

(** Writing at an avoided address changes nothing that is read. *)
Lemma repr_in_mutate (A : gset nat) (h : heap) (t : Tree) (v : value)
    (y : nat) (o : object) :
  y ∈ A -> repr_in A h t v -> repr_in A (<[y := o]> h) t v.
Proof.
  intros Hy. apply repr_in_transfer. intros l o' Hl Hh. split; [done|].
  rewrite lookup_insert_ne; [done | set_solver].
Qed.

(** A value reads as one tree at most. *)
Lemma repr_in_functional (A A' : gset nat) (h : heap) (t t' : Tree) (v : value) :
  repr_in A h t v -> repr_in A' h t' v -> t = t'.
Proof.
  revert t' v.
  induction t as [| b | z | s | ts IH | kts IH] using Tree_ind'; intros t' v.
  1-4: rewrite repr_in_atom by done; intros ->;
       destruct t'; try (rewrite repr_in_atom by done; congruence);
       (rewrite repr_in_seq || rewrite repr_in_map);
       intros (? & ? & ? & _); done.
  - rewrite repr_in_seq. intros (l & vs & -> & _ & Hh & Hall).
    destruct t' as [| | | | ts' | kts'];
      try (rewrite repr_in_atom by done; done).
    + rewrite repr_in_seq. intros (l' & vs' & [= <-] & _ & Hh' & Hall').
      rewrite Hh in Hh'. injection Hh' as <-. f_equal. clear Hh.
      revert ts' Hall'. induction Hall as [|t x ts vs Ht _ IHall];
        intros ts' Hall'; inversion Hall' as [|t' ? ts0 ? Ht' Hall0]; subst;
        [done|].
      apply Forall_cons in IH as [IHt IHts].
      f_equal; [exact (IHt _ _ Ht Ht') | by apply IHall].
    + rewrite repr_in_map. intros (l' & kvs' & [= <-] & _ & Hh' & _).
      congruence.
  - rewrite repr_in_map. intros (l & kvs & -> & _ & Hh & _ & Hall).
    destruct t' as [| | | | ts' | kts'];
      try (rewrite repr_in_atom by done; done).
    + rewrite repr_in_seq. intros (l' & vs' & [= <-] & _ & Hh' & _).
      congruence.
    + rewrite repr_in_map. intros (l' & kvs' & [= <-] & _ & Hh' & _ & Hall').
      rewrite Hh in Hh'. injection Hh' as <-. f_equal. clear Hh.
      revert kts' Hall'. induction Hall as [|kt kv kts kvs [Hk Ht] _ IHall];
        intros kts' Hall'; inversion Hall' as [|kt' ? kts0 ? [Hk' Ht'] Hall0];
        subst; [done|].
      apply Forall_cons in IH as [IHt IHts].
      f_equal; [|by apply IHall].
      destruct kt as [k t], kt' as [k' t']. simpl in *. f_equal; [congruence|].
      exact (IHt _ _ Ht Ht').
Qed.

(** The equations of [deepcopy]. *)
Lemma deepcopy_atom (fuel : nat) (x : value) (m : memo) (h : heap) :
  match x with VRef _ => False | _ => True end ->
  deepcopy fuel x m h = Some (x, m, h).
Proof. destruct fuel, x; simpl; tauto. Qed.

Lemma deepcopy_memo (fuel : nat) (l y : nat) (m : memo) (h : heap) :
  m !! l = Some y -> deepcopy fuel (VRef l) m h = Some (VRef y, m, h).
Proof. intros H. destruct fuel; simpl; by rewrite H. Qed.

Lemma deepcopy_of_list (fuel : nat) (l : nat) (items : list value) (m : memo)
    (h : heap) :
  m !! l = None -> h !! l = Some (OList items) ->
  deepcopy (S fuel) (VRef l) m h =
    match copy_items (deepcopy fuel) (fresh (dom h)) items
            (<[l := fresh (dom h)]> m) (<[fresh (dom h) := OList []]> h) with
    | None => None
    | Some (m', h') => Some (VRef (fresh (dom h)), m', h')
    end.
Proof. intros Hm Hh. simpl. by rewrite Hm, Hh. Qed.

Lemma deepcopy_of_dict (fuel : nat) (l : nat) (items : list (string * value))
    (m : memo) (h : heap) :
  m !! l = None -> h !! l = Some (ODict items) ->
  deepcopy (S fuel) (VRef l) m h =
    match copy_entries (deepcopy fuel) (fresh (dom h)) items
            (<[l := fresh (dom h)]> m) (<[fresh (dom h) := ODict []]> h) with
    | None => None
    | Some (m', h') => Some (VRef (fresh (dom h)), m', h')
    end.
Proof. intros Hm Hh. simpl. by rewrite Hm, Hh. Qed.

(** [grows_but y h h']: every container of [h], the one at [y] apart, is in
    [h'] unchanged. *)
Definition grows_but (y : nat) (h h' : heap) : Prop :=
  forall l o, l <> y -> h !! l = Some o -> h' !! l = Some o.

Lemma grows_but_refl (y : nat) (h : heap) : grows_but y h h.
Proof. by intros l o _ H. Qed.

Lemma grows_but_trans (y : nat) (h1 h2 h3 : heap) :
  grows_but y h1 h2 -> grows_but y h2 h3 -> grows_but y h1 h3.
Proof. intros H12 H23 l o Hl H. by apply H23, H12. Qed.

Lemma grows_but_subseteq (y : nat) (h h' : heap) : h ⊆ h' -> grows_but y h h'.
Proof. intros Hsub l o _ H. by eapply lookup_weaken. Qed.

Lemma grows_but_insert (y : nat) (o : object) (h : heap) :
  grows_but y h (<[y := o]> h).
Proof. intros l o' Hl H. by rewrite lookup_insert_ne. Qed.

Lemma repr_in_grows (A : gset nat) (y : nat) (h h' : heap) (t : Tree)
    (v : value) :
  y ∈ A -> grows_but y h h' -> repr_in A h t v -> repr_in A h' t v.
Proof.
  intros Hy Hg. apply repr_in_transfer. intros l o Hl Hh. split; [done|].
  apply Hg; [|done]. intros ->. done.
Qed.

Lemma subseteq_grows (y : nat) (h0 h h' : heap) :
  y ∉ dom h0 -> h0 ⊆ h -> grows_but y h h' -> h0 ⊆ h'.
Proof.
  intros Hy Hsub Hg. apply map_subseteq_spec. intros l o Hl.
  apply Hg; [|by eapply lookup_weaken].
  intros ->. apply Hy, elem_of_dom. eauto.
Qed.

Lemma height_le_max (t : Tree) (ts : list Tree) :
  In t ts -> height t <= list_max (map height ts).
Proof.
  intros Hin. pose proof (proj1 (list_max_le (map height ts) _) (le_n _)) as H.
  rewrite List.Forall_forall in H. apply H, in_map, Hin.
Qed.

Section Copy.

(** The store in which the copy starts. *)
Variable h0 : heap.

(** The memo entries whose original reads as a tree of height at most [n]
    lead to a finished copy of it, outside [h0] and outside [P]. *)
Definition good (P : gset nat) (n : nat) (m : memo) (h : heap) : Prop :=
  forall l y, m !! l = Some y ->
  forall t, repr h0 t (VRef l) -> height t <= n ->
  repr_in (dom h0 ∪ P) h t (VRef y).

(** The memo entries that a call has added lead to finished copies. *)
Definition entries_done (P : gset nat) (m m' : memo) (h' : heap) : Prop :=
  forall l y, m' !! l = Some y ->
  m !! l = Some y \/
  forall t, repr h0 t (VRef l) -> repr_in (dom h0 ∪ P) h' t (VRef y).

(** A call returned a copy that reads as [t], outside [h0] and outside [P],
    in a store that only grew. *)
Definition copied (P : gset nat) (t : Tree) (m : memo) (h : heap)
    (r : option (value * memo * heap)) : Prop :=
  exists v' m' h',
    r = Some (v', m', h') /\ h ⊆ h' /\
    repr_in (dom h0 ∪ P) h' t v' /\ entries_done P m m' h'.

(** [deepcopy] copies every value that reads as [t], given fuel for the
    height of [t]. *)
Definition copies_well (t : Tree) : Prop :=
  forall fuel v P n m h,
    height t <= fuel -> height t <= n -> repr h0 t v ->
    h0 ⊆ h -> P ⊆ dom h -> good P n m h ->
    copied P t m h (deepcopy fuel v m h).

Lemma good_grows (P : gset nat) (n : nat) (m : memo) (h h' : heap) (y : nat) :
  y ∈ P -> grows_but y h h' -> good P n m h -> good P n m h'.
Proof.
  intros Hy Hg Hgood l y' Hm t Ht Hn.
  eapply repr_in_grows; [| exact Hg | by eapply Hgood]. set_solver.
Qed.

Lemma good_step (P : gset nat) (n : nat) (m m' : memo) (h h' h'' : heap)
    (y : nat) :
  y ∈ P -> h ⊆ h' -> grows_but y h' h'' ->
  good P n m h -> entries_done P m m' h' -> good P n m' h''.
Proof.
  intros Hy Hsub Hg Hgood Hdone l y' Hm t Ht Hn.
  assert (Hy' : y ∈ dom h0 ∪ P) by set_solver.
  destruct (Hdone l y' Hm) as [Hold|Hnew].
  - eapply repr_in_grows; [exact Hy' | exact Hg |].
    eapply repr_in_weaken; [exact Hsub | by eapply Hgood].
  - eapply repr_in_grows; [exact Hy' | exact Hg | by apply Hnew].
Qed.

Lemma entries_done_step (P : gset nat) (m m1 m2 : memo) (h1 h2 : heap)
    (y : nat) :
  y ∈ P -> grows_but y h1 h2 ->
  entries_done P m m1 h1 -> entries_done P m1 m2 h2 -> entries_done P m m2 h2.
Proof.
  intros Hy Hg H1 H2 l y' Hm.
  assert (Hy' : y ∈ dom h0 ∪ P) by set_solver.
  destruct (H2 l y' Hm) as [Hold|Hnew]; [|by right].
  destruct (H1 l y' Hold) as [Hold'|Hnew]; [by left|].
  right. intros t Ht. eapply repr_in_grows; [exact Hy' | exact Hg | by apply Hnew].
Qed.

(** The loop of [_deepcopy_list], started with [done] already appended to
    the new list at [y]: it appends the copies of the items [vs]. *)
Lemma copy_items_correct (P1 : gset nat) (y fuel' n' : nat)
    (ts : list Tree) (vs : list value) :
  y ∈ P1 -> y ∉ dom h0 ->
  Forall2 (repr h0) ts vs ->
  Forall copies_well ts ->
  Forall (fun t => height t <= fuel' /\ height t <= n') ts ->
  forall done_ts done m h,
    h0 ⊆ h -> P1 ⊆ dom h -> good P1 n' m h ->
    h !! y = Some (OList done) ->
    Forall2 (repr_in (dom h0 ∪ P1) h) done_ts done ->
    exists m' h' done',
      copy_items (deepcopy fuel') y vs m h = Some (m', h') /\
      h' !! y = Some (OList done') /\
      Forall2 (repr_in (dom h0 ∪ P1) h') (done_ts ++ ts) done' /\
      grows_but y h h' /\
      entries_done P1 m m' h'.
Proof.
  intros Hy Hy0 Hall. induction Hall as [|t x ts vs Ht _ IH];
    intros Hcw Hht done_ts done m h Hsub HP Hgood Hhy Hdone.
  { exists m, h, done. rewrite app_nil_r. repeat split; try done.
    - apply grows_but_refl.
    - intros l y' Hm. by left. }
  apply Forall_cons in Hcw as [Hcw_t Hcw].
  apply Forall_cons in Hht as [[Hfuel Hn] Hht].
  destruct (Hcw_t fuel' x P1 n' m h Hfuel Hn Ht Hsub HP Hgood)
    as (x' & m1 & h1 & Hr & Hsub1 & Hx' & Hdone1).
  assert (Hy' : y ∈ dom h0 ∪ P1) by set_solver.
  assert (Hhy1 : h1 !! y = Some (OList done)) by by eapply lookup_weaken.
  assert (Hg2 : grows_but y h (<[y := OList (done ++ [x'])]> h1)).
  { eapply grows_but_trans; [by apply grows_but_subseteq | apply grows_but_insert]. }
  destruct (IH Hcw Hht (done_ts ++ [t]) (done ++ [x']) m1
              (<[y := OList (done ++ [x'])]> h1))
    as (m' & h' & done' & Hc & Hhy' & Hall' & Hg & Hd).
  - eapply subseteq_grows; [exact Hy0 | exact Hsub | exact Hg2].
  - rewrite dom_insert_L. apply subseteq_dom in Hsub1.
    etrans; [exact HP|]. etrans; [exact Hsub1|]. apply union_subseteq_r.
  - eapply good_step; [exact Hy | exact Hsub1 | apply grows_but_insert
                      | exact Hgood | exact Hdone1].
  - apply lookup_insert_eq.
  - apply Forall2_app.
    + eapply Forall2_impl; [exact Hdone|]. intros t0 v0.
      by apply (repr_in_grows _ y h).
    + constructor; [|constructor]. by apply repr_in_mutate.
  - exists m', h', done'. simpl. rewrite Hr. unfold list_append. rewrite Hhy1.
    rewrite <- app_assoc in Hall'. repeat split; try done.
    + eapply grows_but_trans; [exact Hg2 | exact Hg].
    + eapply entries_done_step; [exact Hy | | exact Hdone1 | exact Hd].
      eapply grows_but_trans; [apply grows_but_insert | exact Hg].
Qed.

(** The loop of [_deepcopy_dict], started with [done] already written to
    the new dict at [y]: it writes the copies of the items [kvs] under their
    keys, which are new to the dict. *)
Lemma copy_entries_correct (P1 : gset nat) (y fuel' n' : nat)
    (kts : list (string * Tree)) (kvs : list (string * value)) :
  y ∈ P1 -> y ∉ dom h0 ->
  Forall2 (fun kt kv => fst kt = fst kv /\ repr h0 (snd kt) (snd kv)) kts kvs ->
  Forall (fun kt => copies_well (snd kt)) kts ->
  Forall (fun kt => height (snd kt) <= fuel' /\ height (snd kt) <= n') kts ->
  forall done_kts done m h,
    h0 ⊆ h -> P1 ⊆ dom h -> good P1 n' m h ->
    h !! y = Some (ODict done) ->
    NoDup (map fst done ++ map fst kvs) ->
    Forall2 (fun kt kv =>
               fst kt = fst kv /\ repr_in (dom h0 ∪ P1) h (snd kt) (snd kv))
      done_kts done ->
    exists m' h' done',
      copy_entries (deepcopy fuel') y kvs m h = Some (m', h') /\
      h' !! y = Some (ODict done') /\
      map fst done' = map fst done ++ map fst kvs /\
      Forall2 (fun kt kv =>
                 fst kt = fst kv /\ repr_in (dom h0 ∪ P1) h' (snd kt) (snd kv))
        (done_kts ++ kts) done' /\
      grows_but y h h' /\
      entries_done P1 m m' h'.
Proof.
  intros Hy Hy0 Hall. induction Hall as [|[k t] [k' x] kts kvs [Hk Ht] _ IH];
    intros Hcw Hht done_kts done m h Hsub HP Hgood Hhy Hnd Hdone.
  { exists m, h, done. rewrite !app_nil_r. repeat split; try done.
    - apply grows_but_refl.
    - intros l y' Hm. by left. }
  simpl in Hk, Ht. subst k'.
  apply Forall_cons in Hcw as [Hcw_t Hcw].
  apply Forall_cons in Hht as [[Hfuel Hn] Hht]. simpl in Hcw_t, Hfuel, Hn.
  destruct (Hcw_t fuel' x P1 n' m h Hfuel Hn Ht Hsub HP Hgood)
    as (x' & m1 & h1 & Hr & Hsub1 & Hx' & Hdone1).
  assert (Hy' : y ∈ dom h0 ∪ P1) by set_solver.
  assert (Hhy1 : h1 !! y = Some (ODict done)) by by eapply lookup_weaken.
  assert (Hnew : Dict.set k x' done = done ++ [(k, x')]).
  { apply DictFacts.set_new. intros Hin. simpl in Hnd.
    apply NoDup_app in Hnd as (_ & Hdisj & _).
    apply (Hdisj k); [by apply list_elem_of_In | by left]. }
  assert (Hg2 : grows_but y h (<[y := ODict (done ++ [(k, x')])]> h1)).
  { eapply grows_but_trans; [by apply grows_but_subseteq | apply grows_but_insert]. }
  destruct (IH Hcw Hht (done_kts ++ [(k, t)]) (done ++ [(k, x')]) m1
              (<[y := ODict (done ++ [(k, x')])]> h1))
    as (m' & h' & done' & Hc & Hhy' & Hkeys & Hall' & Hg & Hd).
  - eapply subseteq_grows; [exact Hy0 | exact Hsub | exact Hg2].
  - rewrite dom_insert_L. apply subseteq_dom in Hsub1.
    etrans; [exact HP|]. etrans; [exact Hsub1|]. apply union_subseteq_r.
  - eapply good_step; [exact Hy | exact Hsub1 | apply grows_but_insert
                      | exact Hgood | exact Hdone1].
  - apply lookup_insert_eq.
  - rewrite map_app. simpl in *. by rewrite <- app_assoc.
  - apply Forall2_app.
    + eapply Forall2_impl; [exact Hdone|]. intros kt0 kv0 [Hk0 Ht0].
      split; [done|]. by apply (repr_in_grows _ y h).
    + constructor; [|constructor]. split; [done|]. by apply repr_in_mutate.
  - exists m', h', done'. simpl. rewrite Hr. unfold dict_setitem.
    rewrite Hhy1, Hnew. rewrite <- app_assoc in Hall'.
    rewrite map_app, <- app_assoc in Hkeys. repeat split; try done.
    + eapply grows_but_trans; [exact Hg2 | exact Hg].
    + eapply entries_done_step; [exact Hy | | exact Hdone1 | exact Hd].
      eapply grows_but_trans; [apply grows_but_insert | exact Hg].
Qed.

(** Before a new container at the fresh address [y] is filled: the memo
    with the entry for the original, and the store with the empty container,
    are good for the items, which are less high. *)
Lemma good_enter (P : gset nat) (n n' : nat) (m : memo) (h : heap)
    (l : nat) (o : object) (t : Tree) :
  let y := fresh (dom h) in
  h0 ⊆ h -> good P n m h -> repr h0 t (VRef l) ->
  n' < height t -> n' <= n ->
  good (P ∪ {[y]}) n' (<[l := y]> m) (<[y := o]> h).
Proof.
  intros y Hsub Hgood Ht Hlt Hle l1 y1 Hm t1 Ht1 Hn1.
  assert (Hfresh : y ∉ dom h) by apply is_fresh.
  destruct (decide (l = l1)) as [<-|Hne].
  - rewrite (repr_in_functional _ _ _ _ _ _ Ht1 Ht) in Hn1. lia.
  - rewrite lookup_insert_ne in Hm by done.
    rewrite (assoc_L (∪)).
    eapply repr_in_weaken.
    { apply insert_subseteq. by apply not_elem_of_dom. }
    apply repr_in_avoid_fresh; [exact Hfresh|].
    eapply Hgood; [exact Hm | exact Ht1 | lia].
Qed.

(** When the new container at [y] is filled, the call has copied. *)
Lemma copied_leave (P : gset nat) (m m' : memo) (h h' : heap) (l : nat)
    (o : object) (t : Tree) :
  let y := fresh (dom h) in
  h0 ⊆ h -> P ⊆ dom h -> repr h0 t (VRef l) ->
  grows_but y (<[y := o]> h) h' ->
  repr_in (dom h0 ∪ P) h' t (VRef y) ->
  entries_done (P ∪ {[y]}) (<[l := y]> m) m' h' ->
  copied P t m h (Some (VRef y, m', h')).
Proof.
  intros y Hsub HP Ht Hg Hy Hdone.
  assert (Hfresh : y ∉ dom h) by apply is_fresh.
  exists (VRef y), m', h'. repeat split; [| exact Hy |].
  - apply map_subseteq_spec. intros l1 o1 Hl1. apply Hg.
    + intros ->. apply Hfresh, elem_of_dom. eauto.
    + rewrite lookup_insert_ne; [done|].
      intros <-. apply Hfresh, elem_of_dom. eauto.
  - intros l1 y1 Hm. destruct (Hdone l1 y1 Hm) as [Hold|Hnew].
    + destruct (decide (l = l1)) as [<-|Hne].
      * rewrite lookup_insert_eq in Hold. injection Hold as <-. right.
        intros t1 Ht1. by rewrite (repr_in_functional _ _ _ _ _ _ Ht1 Ht).
      * rewrite lookup_insert_ne in Hold by done. by left.
    + right. intros t1 Ht1. eapply repr_in_avoid_less; [|by apply Hnew].
      apply union_mono_l, union_subseteq_l.
Qed.

(** [deepcopy] copies every value that reads as a tree. *)
Lemma deepcopy_copies_well (t : Tree) : copies_well t.
Proof.
  induction t as [| b | z | s | ts IH | kts IH] using Tree_ind';
    intros fuel v P n m h Hfuel Hn Ht Hsub HP Hgood.
  1-4: unfold repr in Ht; rewrite repr_in_atom in Ht by done; subst v;
       eexists _, m, h; (split; [|split; [|split]]);
       [ by apply deepcopy_atom | done | by rewrite repr_in_atom
       | intros l y Hm; by left ].
  - pose proof Ht as Hrepr. unfold repr in Ht.
    apply repr_in_seq in Ht as (l & vs & -> & _ & Hl & Hall).
    destruct (m !! l) as [y|] eqn:Hm.
    { exists (VRef y), m, h.
      split; [by apply deepcopy_memo|]. split; [done|].
      split; [by eapply Hgood|]. intros l1 y1 Hm1. by left. }
    simpl in Hfuel, Hn. destruct fuel as [|fuel']; [lia|].
    rewrite (deepcopy_of_list _ _ vs _ _ Hm (lookup_weaken _ _ _ _ Hl Hsub)).
    set (y := fresh (dom h)).
    assert (Hfresh : y ∉ dom h) by apply is_fresh.
    assert (Hy0 : y ∉ dom h0).
    { intros Hin. apply Hfresh. by eapply subseteq_dom. }
    destruct (copy_items_correct (P ∪ {[y]}) y fuel'
                (list_max (map height ts)) ts vs) with
      (done_ts := @nil Tree) (done := @nil value)
      (m := <[l := y]> m) (h := <[y := OList []]> h)
      as (m' & h' & done' & Hc & Hhy & Hall' & Hg & Hd).
    + apply elem_of_union. right. by apply elem_of_singleton.
    + exact Hy0.
    + exact Hall.
    + exact IH.
    + apply List.Forall_forall. intros t Hin.
      pose proof (height_le_max t ts Hin). lia.
    + apply insert_subseteq_r; [by apply not_elem_of_dom | exact Hsub].
    + rewrite dom_insert_L.
      apply union_least; [|apply union_subseteq_l].
      etrans; [exact HP | apply union_subseteq_r].
    + apply (good_enter P n _ m h l _ (TSeq ts)); try done; simpl; lia.
    + apply lookup_insert_eq.
    + constructor.
    + rewrite Hc. apply (copied_leave P m m' h h' l (OList []) (TSeq ts));
        try done.
      apply repr_in_seq. exists y, done'. repeat split; try done.
      * apply not_elem_of_union. split; [exact Hy0|].
        intros Hin. apply Hfresh. by apply HP.
      * eapply Forall2_impl; [exact Hall'|]. intros t0 v0.
        apply repr_in_avoid_less, union_mono_l, union_subseteq_l.
  - pose proof Ht as Hrepr. unfold repr in Ht.
    apply repr_in_map in Ht as (l & kvs & -> & _ & Hl & Hnd & Hall).
    destruct (m !! l) as [y|] eqn:Hm.
    { exists (VRef y), m, h.
      split; [by apply deepcopy_memo|]. split; [done|].
      split; [by eapply Hgood|]. intros l1 y1 Hm1. by left. }
    simpl in Hfuel, Hn. destruct fuel as [|fuel']; [lia|].
    rewrite (deepcopy_of_dict _ _ kvs _ _ Hm (lookup_weaken _ _ _ _ Hl Hsub)).
    set (y := fresh (dom h)).
    assert (Hfresh : y ∉ dom h) by apply is_fresh.
    assert (Hy0 : y ∉ dom h0).
    { intros Hin. apply Hfresh. by eapply subseteq_dom. }
    destruct (copy_entries_correct (P ∪ {[y]}) y fuel'
                (list_max (map (fun kt => height (snd kt)) kts)) kts kvs) with
      (done_kts := @nil (string * Tree)) (done := @nil (string * value))
      (m := <[l := y]> m) (h := <[y := ODict []]> h)
      as (m' & h' & done' & Hc & Hhy & Hkeys & Hall' & Hg & Hd).
    + apply elem_of_union. right. by apply elem_of_singleton.
    + exact Hy0.
    + exact Hall.
    + exact IH.
    + apply List.Forall_forall. intros kt Hin.
      pose proof (proj1 (list_max_le
                           (map (fun kt => height (snd kt)) kts) _) (le_n _))
        as Hmax.
      rewrite List.Forall_forall in Hmax.
      specialize (Hmax (height (snd kt))
                    (in_map (fun kt => height (snd kt)) kts kt Hin)).
      lia.
    + apply insert_subseteq_r; [by apply not_elem_of_dom | exact Hsub].
    + rewrite dom_insert_L.
      apply union_least; [|apply union_subseteq_l].
      etrans; [exact HP | apply union_subseteq_r].
    + apply (good_enter P n _ m h l _ (TMap kts)); try done; simpl; lia.
    + apply lookup_insert_eq.
    + exact Hnd.
    + constructor.
    + rewrite Hc. apply (copied_leave P m m' h h' l (ODict []) (TMap kts));
        try done.
      apply repr_in_map. exists y, done'. repeat split; try done.
      * apply not_elem_of_union. split; [exact Hy0|].
        intros Hin. apply Hfresh. by apply HP.
      * by rewrite Hkeys.
      * eapply Forall2_impl; [exact Hall'|]. intros kt0 kv0 [Hk0 Ht0].
        split; [done|]. revert Ht0.
        apply repr_in_avoid_less, union_mono_l, union_subseteq_l.
Qed.

End Copy.

(** A read of [Omnifest.tree] in a store where the data reads as [t]. *)
Lemma tree_copies (h : heap) (self : Omnifest) (t : Tree) (fuel : nat) :
  repr h t (_underlying_data self) -> height t <= fuel ->
  exists v' h',
    tree fuel self h = Some (v', h') /\ h ⊆ h' /\ repr_in (dom h) h' t v'.
Proof.
  intros Ht Hfuel.
  assert (Hgood : good h ∅ (height t) ∅ h).
  { intros l y Hm. by rewrite lookup_empty in Hm. }
  destruct (deepcopy_copies_well h t fuel (_underlying_data self) ∅
              (height t) ∅ h Hfuel (le_n _) Ht (reflexivity _)
              (empty_subseteq _) Hgood)
    as (v' & m' & h' & Hr & Hsub & Hv' & _).
  exists v', h'. unfold tree. rewrite Hr.
  rewrite (right_id_L ∅ (∪)) in Hv'. done.
Qed.

(** C6. In a store where the data of an [Omnifest] reads as the tree [t], a
    read of its [tree], given fuel for the height of [t], returns a value
    that reads as [t] and whose containers are all new: none is at an address
    of the store the read started in, which is left as it was. So a write to
    a container of the returned tree (indeed any write outside the old store)
    leaves the data of the [Omnifest] reading as [t], and a second read, in
    any store that still holds the old one, again returns a value that reads
    as [t]. *)
Theorem tree_is_defensive_copy (h0 : heap) (self : Omnifest) (t : Tree)
    (fuel : nat) :
  repr h0 t (_underlying_data self) ->
  height t <= fuel ->
  exists v1 h1,
    tree fuel self h0 = Some (v1, h1) /\
    h0 ⊆ h1 /\
    repr_in (dom h0) h1 t v1 /\
    (forall l o, l ∉ dom h0 ->
       repr (mutate l o h1) t (_underlying_data self)) /\
    (forall h2, h0 ⊆ h2 ->
       exists v2 h3, tree fuel self h2 = Some (v2, h3) /\ repr h3 t v2).
Proof.
  intros Ht Hfuel.
  destruct (tree_copies h0 self t fuel Ht Hfuel) as (v1 & h1 & Hr & Hsub & Hv1).
  exists v1, h1. split; [exact Hr|]. split; [exact Hsub|]. split; [exact Hv1|].
  split.
  - intros l o Hl. unfold mutate. eapply repr_in_weaken; [|exact Ht].
    apply insert_subseteq_r; [by apply not_elem_of_dom | exact Hsub].
  - intros h2 Hsub2.
    destruct (tree_copies h2 self t fuel) as (v2 & h3 & Hr2 & _ & Hv2);
      [by eapply repr_in_weaken | exact Hfuel |].
    exists v2, h3. split; [exact Hr2|].
    eapply repr_in_avoid_less; [|exact Hv2]. apply empty_subseteq.
Qed.

End StoreFacts.

Module StoreRuns.
Import Store Example.

(** Reading a closed value in a closed store is decided by computation. *)
Ltac reads_as :=
  unfold repr; simpl;
  repeat
    match goal with
    | |- exists _, _ => eexists
    | |- _ /\ _ => split
    | |- _ ∉ ∅ => apply not_elem_of_empty
    | |- NoDup _ => apply (bool_decide_unpack _); vm_compute; exact I
    | |- _ !! _ = Some _ => vm_compute; reflexivity
    | |- _ = _ => reflexivity
    | |- True => exact I
    | |- _ => progress simpl
    end.

Lemma store_reads_doc_one :
  repr store (TMap doc_one) (_underlying_data omnifest).
Proof. reads_as. Qed.

(** C6 on the example store: a read of the tree of the [Omnifest] at
    address 1, which holds [doc_one]. *)
Lemma tree_is_defensive_copy_witness :
  exists v1 h1,
    tree 3 omnifest store = Some (v1, h1) /\
    store ⊆ h1 /\
    repr_in (dom store) h1 (TMap doc_one) v1 /\
    (forall l o, l ∉ dom store ->
       repr (mutate l o h1) (TMap doc_one) (_underlying_data omnifest)) /\
    (forall h2, store ⊆ h2 ->
       exists v2 h3, tree 3 omnifest h2 = Some (v2, h3) /\
                     repr h3 (TMap doc_one) v2).
Proof.
  apply (StoreFacts.tree_is_defensive_copy store omnifest (TMap doc_one) 3).
  - exact store_reads_doc_one.
  - simpl. lia.
Defined.

(** The same read, computed: the copy is at the new addresses 4, 5 and 6,
    and a write to the copied list at 6 leaves the list of the data, at 3,
    as it was. *)
Lemma tree_read_computed :
  exists h1,
    tree 3 omnifest store = Some (VRef 4, h1) /\
    h1 !! 4 = Some (ODict [("otk.version", VInt 1);
                           ("target.osbuild.qcow2", VRef 5)]) /\
    h1 !! 5 = Some (ODict [("pipelines", VRef 6)]) /\
    h1 !! 6 = Some (OList [VStr "build"]) /\
    mutate 6 (OList []) h1 !! 3 = Some (OList [VStr "build"]).
Proof.
  destruct (tree 3 omnifest store) as [[v h1]|] eqn:E; vm_compute in E;
    [|discriminate].
  injection E as <- <-. eexists. split; [reflexivity|].
  repeat split; vm_compute; reflexivity.
Qed.

End StoreRuns.

(** * Further properties of the driver and the document container *)

(** ** More on splitting *)

Module StrMore.
Import Str.

(** No piece of a split holds the separator. *)
Lemma split_pieces (sep : Ascii.ascii) (s p : string) :
  In p (split sep s) -> count sep p = 0.
Proof.
  revert p. induction s as [|c r IH]; intros p; simpl.
  { intros [<-|[]]. reflexivity. }
  destruct (Ascii.eqb c sep) eqn:E.
  - intros [<-|Hin]; [reflexivity | by apply IH].
  - destruct (split sep r) as [|q qs] eqn:Hs.
    + intros [<-|[]]. simpl. by rewrite E.
    + intros [<-|Hin].
      * simpl. rewrite E. apply IH. by left.
      * apply IH. by right.
Qed.

(** A string without the separator is the one piece of its split. *)
Lemma split_whole (sep : Ascii.ascii) (s : string) :
  count sep s = 0 -> split sep s = [s].
Proof.
  induction s as [|c r IH]; simpl; [done|].
  destruct (Ascii.eqb c sep); [done|]. intros H. by rewrite IH.
Qed.

(** Two strings without the separator, joined by it, split into the two. *)
Lemma split_kind_name (sep : Ascii.ascii) (a b : string) :
  count sep a = 0 -> count sep b = 0 ->
  split sep (a +:+ String sep b) = [a; b].
Proof.
  intros Ha Hb. induction a as [|c r IH].
  - rewrite StrFacts.append_nil. simpl. rewrite StrFacts.eqb_ascii_refl.
    by rewrite split_whole.
  - rewrite StrFacts.append_cons. simpl in *.
    destruct (Ascii.eqb c sep); [done|]. by rewrite IH.
Qed.

End StrMore.



(** ** The forms a run of [_process] takes *)

Section Shape.

Variables (Path Context Defines Target : Type).
Variable X : Externals Path Context Defines Target.

#[local] Abbreviation event := (event Path Context Defines).

(** The event of line 52. *)
Definition input_events (arguments : Namespace) : list event :=
  match input arguments with
  | None => []
  | Some i => [EvOpen i false]
  end.

(** Where compile mode writes: [sys.stdout] or the file named by [-o]. *)
Definition output_stream (arguments : Namespace) : stream :=
  match output arguments with
  | None => Stdout
  | Some o => File o
  end.

(** The eight ways through [_process], each with the events it leaves and
    the way it ends. *)
Inductive run_shape (arguments : Namespace) (dry_run : bool)
    : M Path Context Defines Z -> Prop :=
| shape_input_denied (i : string) :
    input arguments = Some i -> can_open X i false = false ->
    run_shape arguments dry_run ([], inl (OSError i))
| shape_output_denied (o : string) :
    dry_run = false -> output arguments = Some o ->
    can_open X o true = false ->
    (forall i, input arguments = Some i -> can_open X i false = true) ->
    run_shape arguments dry_run (input_events arguments, inl (OSError o))
| shape_include_raises (e : exn) :
    opens X arguments dry_run ->
    process_include X (initial_context X arguments)
      (initial_state X arguments) (document_path X arguments) = inl e ->
    run_shape arguments dry_run (prologue X arguments dry_run, inl e)
| shape_not_an_omnifest (d : Dict.t Tree) (ctx : Context) (e : exn) :
    reads X arguments dry_run d ctx ->
    Omnifest_init (NAME_VERSION X) d = inl e ->
    run_shape arguments dry_run (prologue X arguments dry_run, inl e)
| shape_ambiguous (d : Dict.t Tree) (ctx : Context) :
    reads X arguments dry_run d ctx ->
    ensure (NAME_VERSION X) d = inr tt ->
    ambiguous d (target arguments) = true ->
    run_shape arguments dry_run
      (prologue X arguments dry_run ++ [EvFatal MSG_MULTIPLE_TARGETS []],
       inr 1%Z)
| shape_malformed (d : Dict.t Tree) (ctx : Context) (id : string) :
    reads X arguments dry_run d ctx ->
    ensure (NAME_VERSION X) d = inr tt ->
    ambiguous d (target arguments) = false ->
    head (available_identifiers d) = Some id ->
    length (Str.split "."%char id) <> 2 ->
    run_shape arguments dry_run
      (prologue X arguments dry_run ++ [EvFatal MSG_MALFORMED_TARGET [id]],
       inr 1%Z)
| shape_resolve_raises (d : Dict.t Tree) (ctx : Context)
    (id kind name : string) (sub : Tree) (e : exn) :
    reads X arguments dry_run d ctx ->
    ensure (NAME_VERSION X) d = inr tt ->
    ambiguous d (target arguments) = false ->
    head (available_identifiers d) = Some id ->
    Str.split "."%char id = [kind; name] ->
    Dict.get (PREFIX_TARGET +:+ id) d = Some sub ->
    resolve X (spec_for X kind ctx)
      (Build_State (document_path X arguments) (ctx_defines X ctx)) sub
      = inl e ->
    run_shape arguments dry_run
      (prologue X arguments dry_run ++
         [EvResolve (spec_for X kind ctx)
            (Build_State (document_path X arguments) (ctx_defines X ctx)) sub],
       inl e)
| shape_resolved (d : Dict.t Tree) (ctx : Context)
    (id kind name : string) (sub t : Tree) (spec' : Context) :
    reads X arguments dry_run d ctx ->
    ensure (NAME_VERSION X) d = inr tt ->
    ambiguous d (target arguments) = false ->
    head (available_identifiers d) = Some id ->
    Str.split "."%char id = [kind; name] ->
    Dict.get (PREFIX_TARGET +:+ id) d = Some sub ->
    resolve X (spec_for X kind ctx)
      (Build_State (document_path X arguments) (ctx_defines X ctx)) sub
      = inr (t, spec') ->
    run_shape arguments dry_run
      (prologue X arguments dry_run ++
         EvResolve (spec_for X kind ctx)
           (Build_State (document_path X arguments) (ctx_defines X ctx)) sub ::
         (if dry_run then []
          else [EvWrite (output_stream arguments)
                  (as_string X (renderer_for X kind) spec' t)]),
       inr 0%Z).

(** Every run of [_process] has one of the eight forms. *)
Lemma _process_shape (arguments : Namespace) (dry_run : bool) :
  run_shape arguments dry_run (_process X arguments dry_run).
Proof.
  destruct (opens_cases _ _ _ _ X arguments dry_run)
    as [(i & Hi & Ci)|[(o & -> & Ho & Co & Hin)|Hop]].
  { rewrite (_process_input_denied _ _ _ _ X _ _ i Hi Ci).
    by eapply shape_input_denied. }
  { rewrite (_process_output_denied _ _ _ _ X _ o Hin Ho Co).
    by eapply shape_output_denied. }
  destruct (process_include X (initial_context X arguments)
              (initial_state X arguments) (document_path X arguments))
    as [e|[d ctx]] eqn:Hinc.
  { rewrite (_process_include_raises _ _ _ _ X _ _ e Hop Hinc).
    by apply shape_include_raises. }
  assert (Hr : reads X arguments dry_run d ctx) by done.
  rewrite (_process_reads _ _ _ _ X _ _ d ctx Hr).
  destruct (Omnifest_init (NAME_VERSION X) d) as [e|doc] eqn:Hdoc.
  { by eapply shape_not_an_omnifest. }
  apply Omnifest_init_ok in Hdoc as [-> Hens]. cbv zeta.
  destruct (ambiguous d (target arguments)) eqn:Hamb.
  { rewrite process_document_ambiguous by exact Hamb.
    by eapply shape_ambiguous. }
  pose proof Hens as Hne. apply ensure_ok in Hne as [_ Hne].
  destruct (available_identifiers d) as [|id others] eqn:Hav; [done|].
  assert (Hid : head (available_identifiers d) = Some id) by by rewrite Hav.
  rewrite (process_document_selected _ _ _ _ X arguments dry_run _ _ _
             {| _underlying_data := d |} id Hamb Hid).
  destruct (decide (length (Str.split "."%char id) = 2)) as [H2|H2].
  - destruct (Str.split "."%char id) as [|kind [|name [|x r]]] eqn:Hs;
      simpl in H2; try done.
    destruct (get_first_identifier d id Hid) as [sub Hsub].
    unfold destination.
    rewrite (process_target_resolves _ _ _ _ X dry_run (output_stream arguments)
               _ _ {| _underlying_data := d |} id kind name sub Hs Hsub).
    cbv zeta.
    destruct (resolve X _ _ sub) as [e|[t spec']] eqn:Hres.
    + by eapply shape_resolve_raises.
    + by eapply shape_resolved.
  - rewrite process_target_malformed by exact H2.
    by eapply shape_malformed.
Qed.

Lemma prologue_compile_to_file (arguments : Namespace) (o : string) :
  output arguments = Some o ->
  prologue X arguments false =
    input_events arguments ++
    EvOpen o true ::
    [EvInclude (initial_context X arguments) (initial_state X arguments)
       (document_path X arguments)].
Proof. intros Ho. unfold prologue, input_events. by rewrite Ho. Qed.

(** An event that is not a file open or the include expansion is not among
    the events of lines 52 to 67. *)
Lemma not_in_prologue (arguments : Namespace) (dry_run : bool) (e : event) :
  is_setup e = false -> ~ In e (prologue X arguments dry_run).
Proof. intros He Hin. apply prologue_setup in Hin. congruence. Qed.

(** X2. A run of [_process] that returns, returns 0 or 1. It returns 1
    exactly when it has logged a fatal record, and then it has resolved and
    written nothing; it returns 0 exactly when it has resolved a subtree, and
    then it has logged no fatal record. *)
Theorem status_is_zero_or_one (arguments : Namespace) (dry_run : bool) (z : Z) :
  outcome (_process X arguments dry_run) = inr z ->
  (z = 0%Z /\
   (forall msg a, ~ In (EvFatal msg a) (trace (_process X arguments dry_run))) /\
   exists spec state sub,
     In (EvResolve spec state sub) (trace (_process X arguments dry_run))) \/
  (z = 1%Z /\
   (exists msg a, In (EvFatal msg a) (trace (_process X arguments dry_run))) /\
   forall e, In e (trace (_process X arguments dry_run)) ->
             is_resolution e = false).
Proof.
  pose proof (_process_shape arguments dry_run) as H.
  remember (_process X arguments dry_run) as run eqn:E. clear E.
  destruct H; unfold outcome, trace; simpl; intros [= <-].
  - right. split; [done|]. split.
    + exists MSG_MULTIPLE_TARGETS, []. apply in_or_app. right. by left.
    + intros e. rewrite in_app_iff. intros [Hin|[<-|[]]]; [|done].
      by apply prologue_no_resolution in Hin.
  - right. split; [done|]. split.
    + exists MSG_MALFORMED_TARGET, [id]. apply in_or_app. right. by left.
    + intros e. rewrite in_app_iff. intros [Hin|[<-|[]]]; [|done].
      by apply prologue_no_resolution in Hin.
  - left. split; [done|]. split.
    + intros msg a. rewrite in_app_iff. intros [Hin|[Hin|Hin]].
      * by apply not_in_prologue in Hin.
      * discriminate Hin.
      * destruct dry_run; simpl in Hin; [done|].
        destruct Hin as [Hin|[]]. discriminate Hin.
    + do 3 eexists. apply in_or_app. right. by left.
Qed.

(** X3. A run of [_process] writes to its output exactly when it is a
    compile run that returns 0: nothing is written by a validate run, by a
    run that returns 1, or by a run that raises. *)
Theorem write_iff_success (arguments : Namespace) (dry_run : bool) :
  (exists f text,
     In (EvWrite f text) (trace (_process X arguments dry_run))) <->
  dry_run = false /\ outcome (_process X arguments dry_run) = inr 0%Z.
Proof.
  pose proof (_process_shape arguments dry_run) as H.
  remember (_process X arguments dry_run) as run eqn:E. clear E.
  destruct H; unfold outcome, trace; simpl;
    (split; [intros (f & text & Hin) | intros [Hd [=]]]).
  1: done.
  1: { unfold input_events in Hin. destruct (input arguments);
       simpl in Hin; intuition discriminate. }
  1-2: by apply not_in_prologue in Hin.
  1-3: apply in_app_iff in Hin as [Hin|Hin];
       [by apply not_in_prologue in Hin | simpl in Hin; intuition discriminate].
  - apply in_app_iff in Hin as [Hin|Hin]; [by apply not_in_prologue in Hin|].
    destruct dry_run; [|done]. simpl in Hin. intuition discriminate.
  - subst dry_run. do 2 eexists. apply in_or_app. right. right. by left.
Qed.

(** X4. Compile mode with [-o] opens the output file for writing before the
    document is read, and after the input: when the input cannot be opened
    nothing has happened at all; when it can, the output is opened and then
    the include expansion starts, and a run that does not return 0 after
    that has written nothing to the file it opened. *)
Theorem output_opened_before_document (arguments : Namespace) (o : string) :
  output arguments = Some o ->
  can_open X o true = true ->
  (forall i, input arguments = Some i -> can_open X i false = false ->
     trace (compile X arguments) = []) /\
  ((forall i, input arguments = Some i -> can_open X i false = true) ->
   exists rest,
     trace (compile X arguments) =
       input_events arguments ++
       EvOpen o true ::
       EvInclude (initial_context X arguments) (initial_state X arguments)
         (document_path X arguments) :: rest /\
     (outcome (compile X arguments) <> inr 0%Z ->
      forall f text, ~ In (EvWrite f text) rest)).
Proof.
  intros Ho Co. unfold compile. split.
  { intros i Hi Ci. by rewrite (_process_input_denied _ _ _ _ X _ _ i Hi Ci). }
  intros Hin.
  pose proof (_process_shape arguments false) as H.
  remember (_process X arguments false) as run eqn:E. clear E.
  destruct H; unfold outcome, trace; simpl;
    rewrite ?(prologue_compile_to_file _ _ Ho), <- ?app_assoc; simpl.
  - rewrite (Hin i) in H0; done.
  - congruence.
  - exists []. split; [done|]. intros _ f text [].
  - exists []. split; [done|]. intros _ f text [].
  - eexists. split; [reflexivity|]. intros _ f text [Hx|[]]. discriminate Hx.
  - eexists. split; [reflexivity|]. intros _ f text [Hx|[]]. discriminate Hx.
  - eexists. split; [reflexivity|]. intros _ f text [Hx|[]]. discriminate Hx.
  - eexists. split; [reflexivity|]. done.
Qed.


(** Events by kind. *)
Definition is_include (e : event) : bool :=
  match e with EvInclude _ _ _ => true | _ => false end.
Definition is_fatal (e : event) : bool :=
  match e with EvFatal _ _ => true | _ => false end.
Definition is_resolve (e : event) : bool :=
  match e with EvResolve _ _ _ => true | _ => false end.
Definition is_write (e : event) : bool :=
  match e with EvWrite _ _ => true | _ => false end.

(** How many events of a run a test picks. *)
Definition count_events (p : event -> bool) (tr : list event) : nat :=
  length (List.filter p tr).

Lemma count_events_app (p : event -> bool) (tr1 tr2 : list event) :
  count_events p (tr1 ++ tr2) = count_events p tr1 + count_events p tr2.
Proof. unfold count_events. by rewrite List.filter_app, length_app. Qed.

Lemma count_events_prologue (arguments : Namespace) (dry_run : bool) :
  count_events is_include (prologue X arguments dry_run) = 1 /\
  count_events is_fatal (prologue X arguments dry_run) = 0 /\
  count_events is_resolve (prologue X arguments dry_run) = 0 /\
  count_events is_write (prologue X arguments dry_run) = 0.
Proof.
  unfold prologue.
  destruct (input arguments), dry_run, (output arguments); done.
Qed.

(** X6. One pass: a run of [_process] expands includes at most once (once
    when its files open), resolves at most one subtree, logs at most one
    fatal record and writes at most once. *)
Theorem one_pass (arguments : Namespace) (dry_run : bool) :
  count_events is_include (trace (_process X arguments dry_run)) <= 1 /\
  count_events is_resolve (trace (_process X arguments dry_run)) <= 1 /\
  count_events is_fatal (trace (_process X arguments dry_run)) <= 1 /\
  count_events is_write (trace (_process X arguments dry_run)) <= 1 /\
  (opens X arguments dry_run ->
   count_events is_include (trace (_process X arguments dry_run)) = 1).
Proof.
  pose proof (_process_shape arguments dry_run) as H.
  remember (_process X arguments dry_run) as run eqn:E. clear E.
  destruct (count_events_prologue arguments dry_run) as (Hi & Hf & Hr & Hw).
  destruct H; unfold trace; simpl fst;
    rewrite ?count_events_app, ?Hi, ?Hf, ?Hr, ?Hw;
    (split; [|split; [|split; [|split]]]);
    try (unfold count_events, input_events;
         destruct (input arguments); destruct dry_run; simpl; lia).
  - intros [Hin _]. rewrite (Hin i) in H0; done.
  - intros [_ Hout]. rewrite (Hout H o) in H1; done.
Qed.

Lemma bind_ext {A B : Type} (m : M Path Context Defines A)
    (k k' : A -> M Path Context Defines B) :
  (forall a, k a = k' a) -> bind m k = bind m k'.
Proof. intros H. destruct m as [tr [e|a]]; simpl; [done | by rewrite H]. Qed.

(** X7. The value of [-t] is ignored: two runs whose arguments differ only
    in the target requested, and agree on whether one is requested at all
    (a target that is [None] or empty counts as none), are the same run. *)
Theorem target_value_is_ignored (arguments arguments' : Namespace)
    (dry_run : bool) :
  input arguments = input arguments' ->
  output arguments = output arguments' ->
  Str.truthy (target arguments) = Str.truthy (target arguments') ->
  _process X arguments dry_run = _process X arguments' dry_run.
Proof.
  destruct arguments as [i o t], arguments' as [i' o' t']. simpl.
  intros <- <- Ht. unfold _process, working_directory, document_path.
  cbn [input output target].
  apply bind_ext. intros src. apply bind_ext. intros dst. cbv zeta.
  apply bind_ext. intros included. apply bind_ext. intros doc.
  unfold process_document. cbn [input output target]. cbv zeta.
  by rewrite Ht.
Qed.

(** X8. The check of the target's name accepts an identifier exactly when
    it consists of two parts without a [.] around one [.]; either part may be
    empty, so [.x], [x.] and [.] pass the check. *)
Theorem target_name_grammar (dry_run : bool) (dst : option stream) (p : Path)
    (ctx : Context) (doc : Omnifest) (id : string) :
  In (EvFatal MSG_MALFORMED_TARGET [id])
     (trace (process_target X dry_run dst p ctx doc id)) <->
  ~ exists kind name,
      id = kind +:+ "." +:+ name /\
      Str.count "."%char kind = 0 /\ Str.count "."%char name = 0.
Proof.
  destruct (decide (length (Str.split "."%char id) = 2)) as [H2|H2].
  - destruct (Str.split "."%char id) as [|kind [|name [|x r]]] eqn:Hs;
      simpl in H2; try done.
    split.
    + unfold process_target. rewrite Hs.
      destruct (Dict.get _ (tree doc)) as [sub|]; simpl; [|done].
      destruct (resolve X _ _ sub) as [x|[t spec']]; simpl;
        [intuition discriminate|].
      destruct dry_run, dst; simpl; intuition discriminate.
    + intros Hno. exfalso. apply Hno. exists kind, name. split; [|split].
      * symmetry. by apply StrFacts.split_two.
      * apply (StrMore.split_pieces "."%char id). rewrite Hs. by left.
      * apply (StrMore.split_pieces "."%char id). rewrite Hs. right. by left.
  - rewrite process_target_malformed by exact H2. split.
    + intros _ (kind & name & -> & Hk & Hn). apply H2.
      change ("." +:+ name) with (String "."%char name).
      by rewrite StrMore.split_kind_name.
    + intros _. by left.
Qed.

End Shape.

Arguments input_events {Path Context Defines} arguments.
Arguments is_include {Path Context Defines} e.
Arguments is_fatal {Path Context Defines} e.
Arguments is_resolve {Path Context Defines} e.
Arguments is_write {Path Context Defines} e.
Arguments count_events {Path Context Defines} p tr.

(** ** The targets a document offers, once more *)

(** Reading a key after a write: the written value under the written key,
    and what was there before under any other. *)
Lemma get_set {V : Type} (k k' : string) (v : V) (d : Dict.t V) :
  Dict.get k' (Dict.set k v d) =
    if String.eqb k' k then Some v else Dict.get k' d.
Proof.
  induction d as [|[k0 v0] r IH]; simpl.
  - by destruct (String.eqb k' k).
  - destruct (String.eqb k k0) eqn:E; simpl.
    + apply String.eqb_eq in E. subst k0. by destruct (String.eqb k' k).
    + rewrite IH. destruct (String.eqb k' k0) eqn:E0; [|done].
      apply String.eqb_eq in E0. subst k0.
      destruct (String.eqb k' k) eqn:E1; [|done].
      apply String.eqb_eq in E1. subst k'. by rewrite String.eqb_refl in E.
Qed.

Lemma get_collect (d acc : Dict.t Tree) (id : string) :
  NoDup (Dict.keys d) ->
  Dict.get id (fold_left collect d acc) =
    match Dict.get (PREFIX_TARGET +:+ id) d with
    | Some v => Some v
    | None => Dict.get id acc
    end.
Proof.
  remember (PREFIX_TARGET +:+ id) as key eqn:Hkey.
  revert acc. induction d as [|[k v] r IH]; intros acc Hnd; [done|].
  cbn [fold_left Dict.get].
  apply NoDup_cons in Hnd as [Hk Hnd]. cbn [fst] in Hk.
  rewrite IH by exact Hnd.
  destruct (String.eqb key k) eqn:E.
  - apply String.eqb_eq in E. subst k.
    assert (Hnone : Dict.get key r = None).
    { destruct (Dict.get key r) eqn:Hg; [|done].
      exfalso. apply Hk. apply list_elem_of_In, DictFacts.get_In.
      by rewrite Hg. }
    rewrite Hnone. unfold collect. cbn [fst snd]. subst key.
    unfold Str.startswith.
    rewrite StrFacts.prefix_append, StrFacts.removeprefix_append.
    by rewrite get_set, String.eqb_refl.
  - destruct (Dict.get key r); [done|].
    unfold collect. cbn [fst snd].
    destruct (Str.startswith k PREFIX_TARGET) eqn:Hp; [|done].
    rewrite get_set.
    destruct (String.eqb id (Str.removeprefix k PREFIX_TARGET)) eqn:E'; [|done].
    apply String.eqb_eq in E'. subst id key.
    rewrite StrFacts.removeprefix_restore in E by exact Hp.
    by rewrite String.eqb_refl in E.
Qed.

(** X9. For a dictionary (unique keys), [target_available] holds under each
    identifier what the document holds under the identifier with the target
    prefix before it, holds nothing under any other key, and has unique keys
    itself. *)
Theorem target_available_lookup (d : Dict.t Tree) (id : string) :
  NoDup (Dict.keys d) ->
  Dict.get id (target_available d) = Dict.get (PREFIX_TARGET +:+ id) d /\
  NoDup (Dict.keys (target_available d)).
Proof.
  intros Hnd. split.
  - rewrite target_available_fold, get_collect by exact Hnd.
    by destruct (Dict.get (PREFIX_TARGET +:+ id) d).
  - rewrite keys_target_available by exact Hnd. unfold available_identifiers.
    apply NoDup_fmap_2_strong.
    + intros k1 k2 H1 H2. apply list_elem_of_In, List.filter_In in H1 as [_ H1].
      apply list_elem_of_In, List.filter_In in H2 as [_ H2].
      by apply StrFacts.removeprefix_inj.
    + by apply NoDup_ListNoDup, List.NoDup_filter, NoDup_ListNoDup.
Qed.

(** X10. [Omnifest.ensure] reads the keys of the mapping only: two mappings
    with the same keys are both accepted, or both refused with the same
    error, whatever their values (the version's value and the contents of
    the target sections are not looked at). *)
Theorem ensure_reads_keys_only (NV : string) (d d' : Dict.t Tree) :
  Dict.keys d = Dict.keys d' -> ensure NV d = ensure NV d'.
Proof.
  intros Hk. unfold ensure.
  assert (Hc : Dict.contains NV d = Dict.contains NV d').
  { destruct (Dict.contains NV d) eqn:E, (Dict.contains NV d') eqn:E';
      try done.
    - apply DictFacts.contains_In in E. rewrite Hk in E.
      apply DictFacts.contains_In in E. congruence.
    - apply DictFacts.contains_In in E'. rewrite <- Hk in E'.
      apply DictFacts.contains_In in E'. congruence. }
  assert (He : Dict.is_empty (target_available d) =
               Dict.is_empty (target_available d')).
  { assert (Ha : available_identifiers d = available_identifiers d')
      by (unfold available_identifiers; by rewrite Hk).
    destruct (Dict.is_empty (target_available d)) eqn:E,
             (Dict.is_empty (target_available d')) eqn:E'; try done.
    - apply is_empty_target_available in E. rewrite Ha in E.
      apply is_empty_target_available in E. congruence.
    - apply is_empty_target_available in E'. rewrite <- Ha in E'.
      apply is_empty_target_available in E'. congruence. }
  by rewrite Hc, He.
Qed.

(** ** [root], the entry point *)

(** The handler [root] gives to [logging.basicConfig]: a
    [JSONSequenceHandler(arguments.identifier, stream=sys.stderr)] or a
    [logging.StreamHandler()]. *)
Inductive handler : Type :=
| JSONSequenceHandler (identifier : option string)
| StreamHandler.

(** [logging.WARNING] *)
Definition WARNING : Z := 30.

(** The namespace [parser.parse_args] returns: the attributes of the main
    parser, [command] (the [dest] of the sub-parsers), and in [subcommand]
    the attributes of the sub-parser chosen. *)
Record TopNamespace : Type := {
  json : bool;
  verbose : nat;
  identifier : option string;
  warn : option string;
  command : string;
  subcommand : Namespace;
}.

(** What ends [root] other than a return: an exception out of the
    subcommand, [SystemExit] ([parser.exit], or [parse_args] refusing the
    command line), or the [RuntimeError] of line 48. *)
Inductive root_exn : Type :=
| Raised (e : exn)
| SystemExit (status : Z)
| RuntimeError (msg : string).

Section Root.

Variables (Path Context Defines Target : Type).
Variable X : Externals Path Context Defines Target.

(** [parser_create().parse_args(argv)], from [argparse]: the namespace, or
    the status [argparse] exits with. *)
Variable parse_args : list string -> Z + TopNamespace.

(** What [root] does, in order: the logging configuration, the help text,
    and the events of the subcommand. *)
Inductive root_event : Type :=
| EvBasicConfig (level : Z) (h : handler)
| EvPrintHelp
| EvProcess (e : event Path Context Defines).

(** The end of a subcommand as an end of [root]. *)
Definition returned (r : exn + Z) : root_exn + Z :=
  match r with
  | inl e => inl (Raised e)
  | inr z => inr z
  end.

(** [root()], given [sys.argv]. *)
Definition root (sys_argv : list string) : list root_event * (root_exn + Z) :=
  let argv := drop 1 sys_argv in
  match parse_args argv with
  | inl status => ([], inl (SystemExit status))
  | inr arguments =>
      let config :=
        EvBasicConfig (WARNING - 10 * Z.of_nat (verbose arguments))
          (if json arguments then JSONSequenceHandler (identifier arguments)
           else StreamHandler) in
      if Str.truthy (identifier arguments) && negb (json arguments) then
        ([config; EvPrintHelp], inl (SystemExit 0))
      else if String.eqb (command arguments) "compile" then
        let run := compile X (subcommand arguments) in
        (config :: map EvProcess (trace run), returned (outcome run))
      else if String.eqb (command arguments) "validate" then
        let run := validate X (subcommand arguments) in
        (config :: map EvProcess (trace run), returned (outcome run))
      else ([config], inl (RuntimeError "Unknown subcommand"))
  end.

Lemma in_map_EvProcess (e : event Path Context Defines)
    (tr : list (event Path Context Defines)) :
  In (EvProcess e) (map EvProcess tr) <-> In e tr.
Proof.
  rewrite in_map_iff. split; [|eauto]. intros (e' & [= ->] & Hin). done.
Qed.

(** X11. What [root] returns is what its subcommand returned, 0 or 1, and
    [root] returns only when the command line parsed to [compile] or
    [validate]; output is written only under [compile], and then the status
    is 0. *)
Theorem root_returns_subcommand_status (sys_argv : list string) :
  (forall z, snd (root sys_argv) = inr z ->
     (z = 0%Z \/ z = 1%Z) /\
     exists arguments,
       parse_args (drop 1 sys_argv) = inr arguments /\
       (command arguments = "compile" /\
        outcome (compile X (subcommand arguments)) = inr z \/
        command arguments = "validate" /\
        outcome (validate X (subcommand arguments)) = inr z)) /\
  (forall f text, In (EvProcess (EvWrite f text)) (fst (root sys_argv)) ->
     snd (root sys_argv) = inr 0%Z /\
     exists arguments,
       parse_args (drop 1 sys_argv) = inr arguments /\
       command arguments = "compile").
Proof.
  unfold root, compile, validate.
  destruct (parse_args (drop 1 sys_argv)) as [status|arguments];
    [split; [done | intros f text []]|].
  destruct (Str.truthy (identifier arguments) && negb (json arguments)).
  { split; [done|]. simpl. intros f text H. intuition discriminate. }
  assert (Hstatus : forall dry_run z,
    returned (outcome (_process X (subcommand arguments) dry_run)) = inr z ->
    (z = 0%Z \/ z = 1%Z) /\
    outcome (_process X (subcommand arguments) dry_run) = inr z).
  { intros dry_run z.
    pose proof (_process_shape _ _ _ _ X (subcommand arguments) dry_run) as H.
    destruct H; unfold outcome; simpl; intros [= <-]; auto. }
  assert (Hwrite : forall dry_run f text,
    In (EvWrite f text) (trace (_process X (subcommand arguments) dry_run)) ->
    dry_run = false /\
    outcome (_process X (subcommand arguments) dry_run) = inr 0%Z).
  { intros dry_run f text.
    pose proof (_process_shape _ _ _ _ X (subcommand arguments) dry_run) as H.
    remember (_process X (subcommand arguments) dry_run) as run eqn:E. clear E.
    destruct H; unfold outcome, trace; simpl; intros Hin.
    1: done.
    1: { unfold input_events in Hin. destruct (input (subcommand arguments));
         simpl in Hin; intuition discriminate. }
    1-2: by apply not_in_prologue in Hin.
    1-3: apply in_app_iff in Hin as [Hin|Hin];
         [by apply not_in_prologue in Hin
         | simpl in Hin; intuition discriminate].
    apply in_app_iff in Hin as [Hin|Hin]; [by apply not_in_prologue in Hin|].
    destruct dry_run; [|done]. simpl in Hin. intuition discriminate. }
  destruct (String.eqb (command arguments) "compile") eqn:Ec.
  { apply String.eqb_eq in Ec. cbv zeta. simpl fst. simpl snd. split.
    - intros z Hz. destruct (Hstatus false z Hz) as [H01 Ho].
      split; [exact H01|]. exists arguments. split; [done|]. by left.
    - intros f text [Hin|Hin]; [discriminate Hin|].
      apply in_map_EvProcess in Hin.
      destruct (Hwrite false f text Hin) as [_ Ho]. rewrite Ho.
      split; [done|]. by exists arguments. }
  destruct (String.eqb (command arguments) "validate") eqn:Ev.
  { apply String.eqb_eq in Ev. cbv zeta. simpl fst. simpl snd. split.
    - intros z Hz. destruct (Hstatus true z Hz) as [H01 Ho].
      split; [exact H01|]. exists arguments. split; [done|]. by right.
    - intros f text [Hin|Hin]; [discriminate Hin|].
      apply in_map_EvProcess in Hin.
      by destruct (Hwrite true f text Hin) as [Hd _]. }
  split; [done|]. simpl. intros f text H. intuition discriminate.
Qed.


End Root.

(** ** The document container in the store *)

Module StoreDocument.
Import Store.

(** The comprehension of [Omnifest.ensure], on the items of a dict object. *)
Definition target_available (items : Dict.t value) : Dict.t value :=
  fold_left
    (fun acc kv =>
       if Str.startswith (fst kv) PREFIX_TARGET
       then Dict.set (Str.removeprefix (fst kv) PREFIX_TARGET) (snd kv) acc
       else acc)
    items [].

(** [Omnifest.ensure(deserialized_data)] on a reference to a dict object;
    [None] when the value is not one. *)
Definition ensure (NAME_VERSION : string) (h : heap) (deserialized_data : value)
    : option (exn + unit) :=
  match deserialized_data with
  | VRef l =>
      match h !! l with
      | Some (ODict items) =>
          Some (if negb (Dict.contains NAME_VERSION items)
                then inl (ParseVersionError NAME_VERSION)
                else if Dict.is_empty (target_available items)
                     then inl NoTargetsError
                     else inr tt)
      | _ => None
      end
  | _ => None
  end.

(** [Omnifest(underlying_data)]: the checks, then
    [self._underlying_data = underlying_data], which stores the reference. *)
Definition Omnifest_init (NAME_VERSION : string) (h : heap)
    (underlying_data : value) : option (exn + Omnifest) :=
  match ensure NAME_VERSION h underlying_data with
  | Some (inr _) => Some (inr {| _underlying_data := underlying_data |})
  | Some (inl e) => Some (inl e)
  | None => None
  end.

(** X13. The constructor keeps the reference it is given, not a copy: after
    a write to the dict that was passed to [Omnifest(...)], a read of [tree]
    returns a copy of the dict as written, whatever was checked at
    construction. *)
Theorem construction_keeps_the_reference (NV : string) (h : heap) (l : nat)
    (self : Omnifest) (o : object) (t' : Tree) (fuel : nat) :
  Omnifest_init NV h (VRef l) = Some (inr self) ->
  repr (mutate l o h) t' (VRef l) ->
  height t' <= fuel ->
  exists v h',
    tree fuel self (mutate l o h) = Some (v, h') /\ repr h' t' v.
Proof.
  unfold Omnifest_init. intros Hinit Ht Hfuel.
  destruct (ensure NV h (VRef l)) as [[e|[]]|]; try done.
  injection Hinit as <-.
  destruct (StoreFacts.tree_copies (mutate l o h)
              {| _underlying_data := VRef l |} t' fuel Ht Hfuel)
    as (v & h' & Hr & _ & Hv).
  exists v, h'. split; [exact Hr|].
  eapply StoreFacts.repr_in_avoid_less; [|exact Hv]. apply empty_subseteq.
Qed.

(** X14. Two reads of [tree] return two objects that share no container:
    the second copy lies outside the store the first copy is in, so a write
    to a container of the second leaves the first reading as before. *)
Theorem reads_do_not_share (h0 : heap) (self : Omnifest) (t : Tree)
    (fuel : nat) :
  repr h0 t (_underlying_data self) ->
  height t <= fuel ->
  exists v1 h1 v2 h2,
    tree fuel self h0 = Some (v1, h1) /\
    tree fuel self h1 = Some (v2, h2) /\
    repr h1 t v1 /\
    repr_in (dom h1) h2 t v2 /\
    (forall l o, l ∉ dom h1 -> repr (mutate l o h2) t v1).
Proof.
  intros Ht Hfuel.
  destruct (StoreFacts.tree_copies h0 self t fuel Ht Hfuel)
    as (v1 & h1 & Hr1 & Hsub1 & Hv1).
  assert (Ht1 : repr h1 t (_underlying_data self))
    by by eapply StoreFacts.repr_in_weaken.
  destruct (StoreFacts.tree_copies h1 self t fuel Ht1 Hfuel)
    as (v2 & h2 & Hr2 & Hsub2 & Hv2).
  assert (Hv1' : repr h1 t v1).
  { eapply StoreFacts.repr_in_avoid_less; [|exact Hv1]. apply empty_subseteq. }
  exists v1, h1, v2, h2. repeat split; try done.
  intros l o Hl. unfold mutate. eapply StoreFacts.repr_in_weaken; [|exact Hv1'].
  apply insert_subseteq_r; [by apply not_elem_of_dom | exact Hsub2].
Qed.

End StoreDocument.

(** ** The further properties on explicit runs *)

Module MoreRuns.
Import Example.

(** [otk compile -o build/out.json manifests/malformed.yaml] *)
Definition to_file : Namespace :=
  {| input := Some "manifests/malformed.yaml";
     output := Some "build/out.json";
     target := None |}.

(** [doc_one] with other values under the same keys. *)
Definition doc_one_hollow : Dict.t Tree :=
  [("otk.version", TNone); ("target.osbuild.qcow2", TNone)].

(** X2 on [otk validate manifests/two.yaml], which returns 1. *)
Lemma status_is_zero_or_one_witness :
  (1%Z = 0%Z /\
   (forall msg a,
      ~ In (EvFatal msg a)
           (trace (_process world (args "manifests/two.yaml" None) true))) /\
   exists spec state sub,
     In (EvResolve spec state sub)
        (trace (_process world (args "manifests/two.yaml" None) true))) \/
  (1%Z = 1%Z /\
   (exists msg a,
      In (EvFatal msg a)
         (trace (_process world (args "manifests/two.yaml" None) true))) /\
   forall e,
     In e (trace (_process world (args "manifests/two.yaml" None) true)) ->
     is_resolution e = false).
Proof.
  apply (status_is_zero_or_one _ _ _ _ world
           (args "manifests/two.yaml" None) true 1%Z).
  reflexivity.
Defined.

(** X4 on [otk compile -o build/out.json manifests/malformed.yaml], which
    returns 1 with the output file opened and nothing written. *)
Lemma output_opened_before_document_witness :
  exists rest,
    trace (compile world to_file) =
      input_events to_file ++
      EvOpen "build/out.json" true ::
      EvInclude (initial_context world to_file) (initial_state world to_file)
        (document_path world to_file) :: rest /\
    (outcome (compile world to_file) <> inr 0%Z ->
     forall f text, ~ In (EvWrite f text) rest).
Proof.
  apply (output_opened_before_document _ _ _ _ world to_file "build/out.json").
  - reflexivity.
  - reflexivity.
  - intros i [= <-]. reflexivity.
Defined.


(** X7 on [otk compile -t osbuild.ami manifests/two.yaml] and
    [otk compile -t osbuild.qcow2 manifests/two.yaml]. *)
Lemma target_value_is_ignored_witness :
  _process world (args "manifests/two.yaml" (Some "osbuild.ami")) false =
  _process world (args "manifests/two.yaml" (Some "osbuild.qcow2")) false.
Proof.
  apply (target_value_is_ignored _ _ _ _ world
           (args "manifests/two.yaml" (Some "osbuild.ami"))
           (args "manifests/two.yaml" (Some "osbuild.qcow2")) false);
    reflexivity.
Defined.

(** X9 on [doc_two] and its second target. *)
Lemma target_available_lookup_witness :
  Dict.get "osbuild.ami" (target_available doc_two) =
    Dict.get (PREFIX_TARGET +:+ "osbuild.ami") doc_two /\
  NoDup (Dict.keys (target_available doc_two)).
Proof.
  apply (target_available_lookup doc_two "osbuild.ami").
  exact Runs.NoDup_doc_two.
Defined.

(** X10 on [doc_one] and a mapping with its keys and no contents. *)
Lemma ensure_reads_keys_only_witness :
  ensure "otk.version" doc_one = ensure "otk.version" doc_one_hollow.
Proof.
  apply (ensure_reads_keys_only "otk.version" doc_one doc_one_hollow).
  reflexivity.
Defined.

(** X13 on the example store: the dict given to the constructor is emptied
    afterwards, and the next read of [tree] returns an empty mapping. *)
Lemma construction_keeps_the_reference_witness :
  exists v h',
    Store.tree 1 omnifest (Store.mutate 1 (Store.ODict []) store) = Some (v, h') /\
    Store.repr h' (TMap []) v.
Proof.
  apply (StoreDocument.construction_keeps_the_reference "otk.version" store 1
           omnifest (Store.ODict []) (TMap []) 1).
  - reflexivity.
  - StoreRuns.reads_as.
  - simpl. lia.
Defined.

(** X14 on the example store. *)
Lemma reads_do_not_share_witness :
  exists v1 h1 v2 h2,
    Store.tree 3 omnifest store = Some (v1, h1) /\
    Store.tree 3 omnifest h1 = Some (v2, h2) /\
    Store.repr h1 (TMap doc_one) v1 /\
    Store.repr_in (dom h1) h2 (TMap doc_one) v2 /\
    (forall l o, l ∉ dom h1 -> Store.repr (Store.mutate l o h2) (TMap doc_one) v1).
Proof.
  apply (StoreDocument.reads_do_not_share store omnifest (TMap doc_one) 3).
  - exact StoreRuns.store_reads_doc_one.
  - simpl. lia.
Defined.

End MoreRuns.
